(** * isaac_variant_caller: position ledger, stage gate, concordance
      predicate, filter encoder and the FASTA base counter

    A shallow embedding of

      - starling_common/depth_buffer.hh      (Module DepthBuffer)
      - blt_util/pos_processor_base.hh       (Module PosProcessor)
      - blt_common/snp_util.hh               (Module SnpUtil)
      - starling_common/gvcf_locus_info.cpp  (Module GvcfLocusInfo)
      - libexec/countFastaBases.cpp          (Module CountFastaBases)

    Integers of the source are carried as [Z]; an [unsigned] is a value in
    [0, 2^32) and its arithmetic is written with the reduction modulo
    [2^32] that the machine performs. *)

From Stdlib Require Import ZArith NArith Ascii String.
From stdpp Require Import gmap strings list fin_maps sorting.

Local Open Scope Z_scope.

(** ** Machine integers *)

(** [unsigned] is 32 bits wide on the platforms the caller is built for. *)
Definition UINT_MODULUS : Z := 2 ^ 32.

Definition wrap_unsigned (z : Z) : Z := z mod UINT_MODULUS.

(** [pos_t] (blt_util/blt_types.hh) is a signed integer coordinate. *)
Abbreviation pos_t := Z.

(** ** depth_buffer.hh *)

Module DepthBuffer.

(** [struct depth_buffer]: the only member is
    [std::map<pos_t,unsigned> _data]. *)
Record depth_buffer : Type := mk_depth_buffer { _data : gmap Z Z }.

(** The default-constructed ledger. *)
Definition empty : depth_buffer := mk_depth_buffer ∅.

(** Member functions are state transformers: they take the object and
    give back their result together with the object afterwards. *)
Definition method (A : Type) : Type := depth_buffer -> A * depth_buffer.

(** [val]: [find], then [0] at [end()] and [i->second] otherwise. *)
Definition val (pos : pos_t) : method Z :=
  fun d =>
    match _data d !! pos with
    | None => (0, d)
    | Some v => (v, d)
    end.

(** [inc]: [find], then [_data[pos] = 1] at [end()] and
    [i->second += 1] otherwise. *)
Definition inc (pos : pos_t) : method unit :=
  fun d =>
    match _data d !! pos with
    | None => (tt, mk_depth_buffer (<[pos := 1]> (_data d)))
    | Some v => (tt, mk_depth_buffer (<[pos := wrap_unsigned (v + 1)]> (_data d)))
    end.

(** [clear_pos]: [_data.erase(pos)]. *)
Definition clear_pos (pos : pos_t) : method unit :=
  fun d => (tt, mk_depth_buffer (delete pos (_data d))).

(** The value a read returns, and the object an update leaves. *)
Definition val_of (d : depth_buffer) (pos : pos_t) : Z := fst (val pos d).
Definition after {A} (m : method A) (d : depth_buffer) : depth_buffer := snd (m d).

(** A call made by a client of the ledger. *)
Inductive call : Type :=
| CVal (pos : pos_t)
| CInc (pos : pos_t)
| CClear (pos : pos_t).

Definition perform (c : call) (d : depth_buffer) : depth_buffer :=
  match c with
  | CVal pos => after (val pos) d
  | CInc pos => after (inc pos) d
  | CClear pos => after (clear_pos pos) d
  end.

(** Calls are performed left to right. *)
Definition run (cs : list call) (d : depth_buffer) : depth_buffer :=
  foldl (fun d c => perform c d) d cs.

(** Number of [inc(pos)] calls made since the last [clear_pos(pos)]
    (since the start when there is none). *)
Fixpoint pending (pos : pos_t) (cs : list call) (acc : Z) : Z :=
  match cs with
  | [] => acc
  | CInc p :: cs' => pending pos cs' (if decide (p = pos) then acc + 1 else acc)
  | CClear p :: cs' => pending pos cs' (if decide (p = pos) then 0 else acc)
  | CVal _ :: cs' => pending pos cs' acc
  end.

(** Number of [inc(pos)] calls in a sequence. *)
Fixpoint count_inc (pos : pos_t) (cs : list call) : Z :=
  match cs with
  | [] => 0
  | CInc p :: cs' => (if decide (p = pos) then 1 else 0) + count_inc pos cs'
  | _ :: cs' => count_inc pos cs'
  end.

(** The ledger after [n] consecutive calls [inc(pos)]. *)
Definition inc_times (n : N) (pos : pos_t) (d : depth_buffer) : depth_buffer :=
  N.iter n (after (inc pos)) d.

(** Representation invariant claimed for the ledger: no stored zero. *)
Definition no_zero_entry (d : depth_buffer) : Prop :=
  forall pos v, _data d !! pos = Some v -> v <> 0.

(** What the map holds for [pos] once [n] increments are pending. *)
Definition entry_for (n : Z) : option Z :=
  if decide (n = 0) then None else Some (wrap_unsigned n).

(** The calls of the end-to-end scenario: one increment at each of 100,
    101 and 102, then the eviction of 100 and a read. *)
Definition scenario : list call :=
  [CInc 100; CInc 101; CInc 102; CClear 100; CVal 100].

End DepthBuffer.

(** ** pos_processor_base.hh *)

Module PosProcessor.

(** [struct pos_processor_base]: the protected flag, and whatever the
    concrete processor adds to it ([D], the derived part). *)
Record pos_processor_base (D : Type) : Type := mk_pos_processor_base {
  _is_skip_process_pos : bool;
  derived : D
}.
Arguments mk_pos_processor_base {D} _ _.
Arguments _is_skip_process_pos {D} _.
Arguments derived {D} _.

(** The pure virtual [process_pos]: a concrete processor supplies it. It
    receives the whole object, flag included (the flag is [protected] and
    [mutable]). *)
Class Processor (D : Type) : Type :=
  process_pos : Z -> pos_t -> pos_processor_base D -> pos_processor_base D.

(** The constructor: [_is_skip_process_pos(false)]. *)
Definition construct {D} (d : D) : pos_processor_base D :=
  mk_pos_processor_base false d.

(** What a subclass does through the protected member. *)
Definition set_skip {D} (b : bool) (p : pos_processor_base D) : pos_processor_base D :=
  mk_pos_processor_base b (derived p).

(** One invocation of the hook, with the arguments it received. *)
Record hook_call : Type := mk_hook_call { hc_stage_no : Z; hc_pos : pos_t }.

(** A processor together with the record of the hook invocations made on
    it so far (most recent last). *)
Definition traced (D : Type) : Type := pos_processor_base D * list hook_call.

(** [check_process_pos]:
    [if(_is_skip_process_pos) return; process_pos(stage_no,pos);] *)
Definition check_process_pos {D} `{Processor D}
    (stage_no : Z) (pos : pos_t) (t : traced D) : traced D :=
  let '(p, log) := t in
  if _is_skip_process_pos p then (p, log)
  else (process_pos stage_no pos p, log ++ [mk_hook_call stage_no pos]).

(** A series of [check_process_pos] calls, first to last. *)
Definition dispatch_all {D} `{Processor D}
    (reqs : list (Z * pos_t)) (t : traced D) : traced D :=
  foldl (fun t r => check_process_pos (fst r) (snd r) t) t reqs.

(** A stub processor whose hook counts its own invocations. *)
#[local] Instance counting_stub : Processor nat :=
  fun _ _ p => mk_pos_processor_base (_is_skip_process_pos p) (S (derived p)).

(** A processor whose hook suppresses every later stage. *)
Definition one_shot : Processor unit :=
  fun _ _ p => set_skip true p.

(** The invocations a series of requests asks for, in the order of the
    requests. *)
Definition requested (reqs : list (Z * pos_t)) : list hook_call :=
  (fun r => mk_hook_call (fst r) (snd r)) <$> reqs.

End PosProcessor.

(** ** snp_util.hh *)

Module SnpUtil.

(** A [base_call] of the pileup: only [base_id] is read here. The header
    that declares it is not among the sources, so the member is carried as
    the integer it holds; the function converts it to [uint8_t] before it
    looks at it ([obs_id] below). *)
Record base_call : Type := mk_base_call { base_id : Z }.

(** [snp_pos_info]: only [calls] is read here, an indexable sequence. *)
Record snp_pos_info : Type := mk_snp_pos_info { calls : list base_call }.

(** How a call ends: with a value, or in a failed [assert]. *)
Inductive outcome : Type :=
| Returned (b : bool)
| AssertionFailed.

#[global] Instance outcome_eq_dec : EqDecision outcome.
Proof. solve_decision. Defined.

(** [uint8_t] holds a value in [0, 2^8). *)
Definition UINT8_MODULUS : Z := 2 ^ 8.

(** [const uint8_t obs_id(pi.calls[i].base_id)]: the identifier of one
    entry as the function observes it. *)
Definition obs_id (c : base_call) : Z := base_id c mod UINT8_MODULUS.

(** [const unsigned n_calls(pi.calls.size())]: the size, converted to
    [unsigned]. *)
Definition n_calls (pi : snp_pos_info) : Z :=
  wrap_unsigned (Z.of_nat (length (calls pi))).

(** The entries the loop visits: [pi.calls[i]] for [i] from [0] up to,
    and without, [n_calls]. As [n_calls] never exceeds [size()], every
    such [i] is an index of the sequence. *)
Definition visited (pi : snp_pos_info) : list base_call :=
  take (Z.to_nat (n_calls pi)) (calls pi).

(** [ref_gt] against the identifier observed in one entry. *)
Definition matches (ref_gt : Z) (c : base_call) : bool := ref_gt =? obs_id c.

Section is_spi_allref.

(** [BASE_ID::ANY] of blt_util/seq_util.hh. *)
Variable ANY : Z.

(** [true] when compiled with NDEBUG, where [assert] expands to
    nothing. *)
Variable ndebug : bool.

(** The loop from index [i] on, over the entries [cs] it has still to
    visit. The second component is the number of entries read when the
    loop stops. *)
Fixpoint allref_loop (ref_gt : Z) (cs : list base_call) (i : nat) : outcome * nat :=
  match cs with
  | [] => (Returned true, i)
  | c :: cs' =>
      let obs := obs_id c in
      if negb ndebug && (obs =? ANY) then (AssertionFailed, S i)
      else if negb (ref_gt =? obs) then (Returned false, S i)
      else allref_loop ref_gt cs' (S i)
  end.

Definition is_spi_allref (pi : snp_pos_info) (ref_gt : Z) : outcome :=
  fst (allref_loop ref_gt (visited pi) 0).

(** Number of entries of [pi.calls] the call reads. *)
Definition entries_read (pi : snp_pos_info) (ref_gt : Z) : nat :=
  snd (allref_loop ref_gt (visited pi) 0).

End is_spi_allref.

(** The identifiers of [BASE_ID] as the enumeration lists them: A, C, G,
    T and then ANY. They serve in the examples only. *)
Definition BASE_A : Z := 0.
Definition BASE_C : Z := 1.
Definition BASE_ANY : Z := 4.

Definition pileup (ids : list Z) : snp_pos_info :=
  mk_snp_pos_info (mk_base_call <$> ids).

(** Evidence of [2^32] entries, every one of them the same call. *)
Definition flood (id : Z) : snp_pos_info :=
  mk_snp_pos_info (replicate (Z.to_nat UINT_MODULUS) (mk_base_call id)).

End SnpUtil.

(** ** gvcf_locus_info.cpp *)

Module GvcfLocusInfo.

(** An output stream is the text written to it so far; [os << s] appends. *)
Definition ostream : Type := string.
Definition put (os : ostream) (s : string) : ostream := String.append os s.
Infix "<<" := put (at level 50, left associativity).

(** [std::bitset<N>] as the number whose binary digits are the bits. *)
Definition bitset : Type := N.

Definition bs_empty : bitset := 0%N.
Definition bs_test (b : bitset) (i : nat) : bool := N.testbit b (N.of_nat i).
Definition bs_none (b : bitset) : bool := (b =? 0)%N.

(** [shared_modifiers]: [write_filters] reads [filters] only. *)
Record shared_modifiers : Type := mk_shared_modifiers { filters : bitset }.

(** [site_modifiers : shared_modifiers] with its five flags. *)
Record site_modifiers : Type := mk_site_modifiers {
  shared : shared_modifiers;
  is_unknown : bool;
  is_covered : bool;
  is_used_covered : bool;
  is_zero_ploidy : bool;
  is_block : bool
}.

Section write_filters.

(** [VCF_FILTERS::SIZE] and [VCF_FILTERS::get_label] are declared in
    starling_common/gvcf_locus_info.hh, which is not among the sources:
    the number of filter kinds and their label table are taken as
    given. *)
Variable SIZE : nat.
Variable get_label : nat -> string.

(** A [std::bitset<SIZE>] holds [SIZE] bits. *)
Definition bs_wf (b : bitset) : Prop := (b < 2 ^ N.of_nat SIZE)%N.

(** [bitset::set(i)]: [None] stands for the [std::out_of_range] it
    throws beyond the last bit. *)
Definition bs_set (i : nat) (b : bitset) : option bitset :=
  if (i <? SIZE)%nat then Some (N.lor b (N.shiftl 1 (N.of_nat i))) else None.

(** Setting several bits one after the other, starting from [b]; the
    exception of a [set] ends the series. *)
Fixpoint bs_set_all (idxs : list nat) (b : bitset) : option bitset :=
  match idxs with
  | [] => Some b
  | i :: idxs' =>
      match bs_set i b with
      | Some b' => bs_set_all idxs' b'
      | None => None
      end
  end.

(** The body of [for(unsigned i(0);i<VCF_FILTERS::SIZE;++i)], over the
    indices still to visit. *)
Fixpoint write_filters_loop (f : bitset) (idxs : list nat)
    (is_sep : bool) (os : ostream) : ostream :=
  match idxs with
  | [] => os
  | i :: idxs' =>
      if bs_test f i then
        let os1 := if is_sep then os << ";" else os in
        write_filters_loop f idxs' true (os1 << get_label i)
      else write_filters_loop f idxs' is_sep os
  end.

Definition write_filters (sm : shared_modifiers) (os : ostream) : ostream :=
  if bs_none (filters sm) then os << "PASS"
  else write_filters_loop (filters sm) (seq 0 SIZE) false os.

(** The filter kinds whose bit is set, in enumeration order. *)
Definition set_kinds (f : bitset) : list nat :=
  List.filter (bs_test f) (seq 0 SIZE).

End write_filters.

(** Text properties used to state what the encoder emits. *)
Definition is_semicolon (c : ascii) : bool := (c =? ";")%char.

Definition is_space (c : ascii) : bool :=
  let n := nat_of_ascii c in
  ((n =? 32) || ((9 <=? n) && (n <=? 13)))%nat.

Definition first_char (s : string) : option ascii :=
  head (list_ascii_of_string s).

Definition last_char (s : string) : option ascii :=
  last (list_ascii_of_string s).

Definition count_semicolons (s : string) : nat :=
  length (List.filter is_semicolon (list_ascii_of_string s)).

(** A character that is neither the separator nor a blank. *)
Definition token_char (c : ascii) : Prop :=
  is_semicolon c = false /\ is_space c = false.

(** A label that is a single token: not empty, no [;] and no blank. *)
Definition plain_label (s : string) : Prop :=
  s <> EmptyString /\ Forall token_char (list_ascii_of_string s).

(** The filter table of the examples: kinds F1, F2, F3 in this order. *)
Definition example_label (i : nat) : string :=
  match i with
  | O => "F1"
  | S O => "F2"
  | _ => "F3"
  end.

(** [os << b] for a [bool], the stream formatting as it is by default (no
    [boolalpha]): the digit [1] or [0]. *)
Definition put_bool (os : ostream) (b : bool) : ostream :=
  os << (if b then "1" else "0").

(** The whole [site_modifiers] object: the members above and
    [modified_gt], an index of the enumeration [MODIFIED_SITE_GT]. *)
Record site_modifiers_gt : Type := mk_site_modifiers_gt {
  smod_base : site_modifiers;
  modified_gt : nat
}.

Section print_site_modifiers.

(** [MODIFIED_SITE_GT::NONE] and [MODIFIED_SITE_GT::get_label], of the
    header that is not among the sources. *)
Variable NONE : nat.
Variable get_gt_label : nat -> string.

(** [operator<<(std::ostream&, const site_modifiers&)]. *)
Definition print_site_modifiers (os : ostream) (smod : site_modifiers_gt) : ostream :=
  let os := put_bool (os << "is_unknown: ") (is_unknown (smod_base smod)) in
  let os := put_bool (os << " is_covered: ") (is_covered (smod_base smod)) in
  let os := put_bool (os << " is_used_coverage: ") (is_used_covered (smod_base smod)) in
  let os := put_bool (os << " is_zero_ploidy: ") (is_zero_ploidy (smod_base smod)) in
  let os := put_bool (os << " is_block: ") (is_block (smod_base smod)) in
  if bool_decide (modified_gt smod <> NONE)
  then os << " modgt: " << get_gt_label (modified_gt smod)
  else os.

(** The text of the five flags. *)
Definition flags_text (s : site_modifiers) : string :=
  String.append "is_unknown: "
    (String.append (if is_unknown s then "1" else "0")
    (String.append " is_covered: "
    (String.append (if is_covered s then "1" else "0")
    (String.append " is_used_coverage: "
    (String.append (if is_used_covered s then "1" else "0")
    (String.append " is_zero_ploidy: "
    (String.append (if is_zero_ploidy s then "1" else "0")
    (String.append " is_block: " (if is_block s then "1" else "0"))))))))).

(** The text that follows the flags. *)
Definition modgt_text (gt : nat) : string :=
  if bool_decide (gt <> NONE) then String.append " modgt: " (get_gt_label gt)
  else "".

End print_site_modifiers.

(** The five flags of two records are the same. *)
Definition same_flags (a b : site_modifiers) : Prop :=
  is_unknown a = is_unknown b /\ is_covered a = is_covered b /\
  is_used_covered a = is_used_covered b /\
  is_zero_ploidy a = is_zero_ploidy b /\ is_block a = is_block b.

End GvcfLocusInfo.

(** ** countFastaBases.cpp *)

Module CountFastaBases.

Abbreviation byte := Byte.byte.

#[global] Instance byte_eq_dec : EqDecision byte := Byte.byte_eq_dec.

(** [static const bool isBase[128]]: [1] at A, C, G, T, a, c, g, t. *)
Definition isBase : list bool :=
  let o := false in let l := true in
  [ o;o;o;o; o;o;o;o; o;o;o;o; o;o;o;o;
    o;o;o;o; o;o;o;o; o;o;o;o; o;o;o;o;
    o;o;o;o; o;o;o;o; o;o;o;o; o;o;o;o;
    o;o;o;o; o;o;o;o; o;o;o;o; o;o;o;o;
    o;l;o;l; o;o;o;l; o;o;o;o; o;o;o;o;
    o;o;o;o; l;o;o;o; o;o;o;o; o;o;o;o;
    o;l;o;l; o;o;o;l; o;o;o;o; o;o;o;o;
    o;o;o;o; l;o;o;o; o;o;o;o; o;o;o;o ].

(** [isBase[idx]]: [None] when [idx] is not an index of the array. *)
Definition isBase_at (idx : Z) : option bool :=
  if idx <? 0 then None else isBase !! Z.to_nat idx.

(** [static_cast<int8_t>(c)] of a [char] holding the byte [c]. *)
Definition int8_of_char (c : byte) : Z :=
  let v := Z.of_N (Byte.to_N c) in
  if v <? 128 then v else v - 256.

(** [isspace] in the "C" locale: space, and \t \n \v \f \r. *)
Definition isspace (c : byte) : bool :=
  let v := Z.of_N (Byte.to_N c) in
  (v =? 32) || ((9 <=? v) && (v <=? 13)).

Definition NUL : byte := Byte.x00.
Definition LF : byte := Byte.x0a.
Definition CR : byte := Byte.x0d.
Definition GT : byte := Byte.x3e.

(** A [const char*] into a NUL-terminated buffer is the list of the bytes
    from the pointer up to the terminator that [getline] wrote; the empty
    list points at that terminator. *)
Definition deref (p : list byte) : byte := default NUL (head p).

(** One line of [report_os]: file, contig, known and total counts. A
    count is [None] while the member has not been assigned. *)
Record report_line : Type := mk_report_line {
  rl_file : string;
  rl_contig : list byte;
  rl_known : option Z;
  rl_total : option Z
}.

(** [struct scan_result]; the constructor sets [fileName] and [_isSet]. *)
Record scan_result : Type := mk_scan_result {
  fileName : string;
  contigName : list byte;
  knownCount : option Z;
  totalCount : option Z;
  _isSet : bool
}.

Definition scan_result_ctor (f : string) : scan_result :=
  mk_scan_result f [] None None false.

(** [reset(s,e)]: the contig name is the bytes from [s] up to [e]. *)
Definition reset (s e : list byte) (sr : scan_result) : scan_result :=
  mk_scan_result (fileName sr) (take (length s - length e)%nat s)
                 (Some 0) (Some 0) true.

(** [report()], writing to [report_os]. *)
Definition report (sr : scan_result) (report_os : list report_line)
    : scan_result * list report_line :=
  if negb (_isSet sr) then (sr, report_os)
  else (mk_scan_result (fileName sr) (contigName sr)
                       (knownCount sr) (totalCount sr) false,
        report_os ++ [mk_report_line (fileName sr) (contigName sr)
                                     (knownCount sr) (totalCount sr)]).

(** [++count] on an [unsigned] member. *)
Definition incr (c : option Z) : option Z :=
  (fun v => wrap_unsigned (v + 1)) <$> c.

(** [next_word]. *)
Fixpoint next_word (c : list byte) (is_end : bool) : list byte :=
  match c with
  | [] => []
  | ch :: c' =>
      if negb (bool_decide (ch = NUL)) && xorb is_end (isspace ch)
      then next_word c' is_end
      else c
  end.

(** The input stream: the bytes not yet read and the state flags. *)
Record istream : Type := mk_istream {
  rest : list byte;
  eofbit : bool;
  failbit : bool;
  badbit : bool
}.

Definition good (s : istream) : bool :=
  negb (eofbit s || failbit s || badbit s).
Definition fail (s : istream) : bool := failbit s || badbit s.
Definition clear (s : istream) : istream := mk_istream (rest s) false false false.

(** A stream open on the bytes of a file. *)
Definition open_on (bytes : list byte) : istream :=
  mk_istream bytes false false false.

(** How the extraction of one [getline] call stops. *)
Inductive ending : Type := HitEof | HitDelim | HitFull.

(** Extraction of [getline]: at each step end of input is tested first,
    then the delimiter (taken, not stored), then whether the buffer has
    room left ([room] more bytes may be stored). *)
Fixpoint extract (inp : list byte) (room : nat)
    : list byte * list byte * ending :=
  match inp with
  | [] => ([], [], HitEof)
  | c :: inp' =>
      if bool_decide (c = LF) then ([], inp', HitDelim)
      else match room with
           | O => ([], inp, HitFull)
           | S room' =>
               let '(stored, r, e) := extract inp' room' in
               (c :: stored, r, e)
           end
  end.

Definition buff_size : nat := 512.

(** [ref_is.getline(buff,buff_size)]: the bytes stored in [buff] before
    the terminating NUL, and the stream afterwards. *)
Definition getline (s : istream) : list byte * istream :=
  if negb (good s) then ([], mk_istream (rest s) (eofbit s) true (badbit s))
  else
    let '(stored, r, e) := extract (rest s) (buff_size - 1) in
    match e with
    | HitEof => (stored, mk_istream r true (bool_decide (stored = [])) false)
    | HitDelim => (stored, mk_istream r false false false)
    | HitFull => (stored, mk_istream r false true false)
    end.

(** The C string held in a buffer: the bytes before the first NUL. *)
Fixpoint c_string (b : list byte) : list byte :=
  match b with
  | [] => []
  | ch :: b' => if bool_decide (ch = NUL) then [] else ch :: c_string b'
  end.

(** Lines written to [log_os]. [<< buff] writes the C string the buffer
    holds, which is what [ErrHeaderFormat] carries. *)
Inductive log_line : Type :=
| ErrReadFailure (line : Z)
| ErrHeaderFormat (line : Z) (text : list byte)
| ErrMissingHeader.

(** What a call of [get_seq_counts] comes to. *)
Inductive outcome : Type :=
| Done (ok : bool) (report_os : list report_line) (log_os : list log_line)
| OutOfBounds (idx : Z)
| OutOfFuel.

(** Leaving the function: [~scan_result()] reports once more. *)
Definition leave (ok : bool) (sr : scan_result)
    (report_os : list report_line) (log_os : list log_line) : outcome :=
  Done ok (snd (report sr report_os)) log_os.

(** [for(const char* b(buff); *b; ++b)]: the counting loop. The result
    is the updated [sr], or the index of a read outside [isBase]. *)
Fixpoint count_line (b : list byte) (sr : scan_result) : scan_result + Z :=
  match b with
  | [] => inl sr
  | ch :: b' =>
      if bool_decide (ch = NUL) then inl sr
      else if bool_decide (CR = ch) then count_line b' sr
      else
        let sr1 := mk_scan_result (fileName sr) (contigName sr)
                     (knownCount sr) (incr (totalCount sr)) (_isSet sr) in
        match isBase_at (int8_of_char ch) with
        | None => inr (int8_of_char ch)
        | Some true =>
            count_line b' (mk_scan_result (fileName sr1) (contigName sr1)
                             (incr (knownCount sr1)) (totalCount sr1) (_isSet sr1))
        | Some false => count_line b' sr1
        end
  end.

Definition Z_of_bool (b : bool) : Z := if b then 1 else 0.

(** The [while(true)] loop of [get_seq_counts]; [fuel] bounds the number
    of iterations. *)
Fixpoint scan_loop (fuel : nat) (ref_is : istream) (is_header_wrap : bool)
    (line_no : Z) (sr : scan_result) (report_os : list report_line) : outcome :=
  match fuel with
  | O => OutOfFuel
  | S fuel' =>
      let '(buff, ref_is1) := getline ref_is in
      if fail ref_is1 && eofbit ref_is1 then leave true sr report_os []
      else if fail ref_is1 && badbit ref_is1 then
        leave false sr report_os [ErrReadFailure (wrap_unsigned (line_no + 1))]
      else
        let is_wrap := fail ref_is1 in
        let ref_is2 := if is_wrap then clear ref_is1 else ref_is1 in
        let line_no1 := if is_wrap then line_no else wrap_unsigned (line_no + 1) in
        if is_header_wrap then
          scan_loop fuel' ref_is2 (if negb is_wrap then false else is_header_wrap)
                    line_no1 sr report_os
        else if bool_decide (deref buff = GT) then
          let is_header_wrap1 := if is_wrap then true else is_header_wrap in
          let '(sr1, report_os1) := report sr report_os in
          let ns := next_word (tail buff) false in
          if bool_decide (deref ns = NUL) then
            leave false sr1 report_os1
                  [ErrHeaderFormat (wrap_unsigned (line_no1 + Z_of_bool is_wrap))
                                   (c_string buff)]
          else
            let ne := next_word (tail ns) true in
            scan_loop fuel' ref_is2 is_header_wrap1 line_no1 (reset ns ne sr1) report_os1
        else if wrap_unsigned (line_no1 + Z_of_bool is_wrap) <=? 1 then
          leave false sr report_os [ErrMissingHeader]
        else
          match count_line buff sr with
          | inr idx => OutOfBounds idx
          | inl sr1 => scan_loop fuel' ref_is2 is_header_wrap line_no1 sr1 report_os
          end
  end.

(** [get_seq_counts]: every iteration that does not leave the function
    takes at least one byte off the stream, so one more iteration than
    there are bytes is enough. *)
Definition get_seq_counts (ref_is : istream) (file : string) : outcome :=
  scan_loop (S (length (rest ref_is))) ref_is false 0 (scan_result_ctor file) [].

(** A two-line FASTA file: the header [>c], then a sequence line that
    holds the single byte [ch]. *)
Definition one_base_fasta (ch : byte) : list byte :=
  [GT; Byte.x63; LF; ch; LF].

(** A byte of the 7-bit range, 0x00 to 0x7F. *)
Definition seven_bit (c : byte) : Prop := (Byte.to_N c < 128)%N.

(** The bases the usage text calls known: one of [ACGTacgt]. *)
Definition is_acgt (c : byte) : bool :=
  bool_decide (c ∈ [Byte.x41; Byte.x43; Byte.x47; Byte.x54;
                    Byte.x61; Byte.x63; Byte.x67; Byte.x74]).

(** Number of bytes of a text that satisfy a test. *)
Definition count_if (p : byte -> bool) (b : list byte) : nat :=
  length (List.filter p b).

(** The bytes the counting loop counts: all but [\r]. *)
Definition counted (c : byte) : bool := negb (bool_decide (CR = c)).

(** The bases of a sequence text, over its lines: every byte but the line
    ends [\n] and [\r]. *)
Definition is_base_byte (c : byte) : bool :=
  negb (bool_decide (c = LF)) && counted c.

(** [sr] after [k] increments of [knownCount] and [t] of [totalCount]. *)
Definition bumped (k t : nat) (sr : scan_result) : scan_result :=
  mk_scan_result (fileName sr) (contigName sr)
                 (Nat.iter k incr (knownCount sr))
                 (Nat.iter t incr (totalCount sr)) (_isSet sr).

(** A byte of a sequence text that the loop handles as a base or a line
    end: below 0x80, neither NUL nor [>]. *)
Definition sequence_byte (c : byte) : Prop :=
  seven_bit c /\ c <> NUL /\ c <> GT.

(** A header line [>pad name desc]: blanks, then the contig name, a token
    that is not empty, then nothing or a description that a blank or a NUL
    begins; no line end inside, and short enough for the buffer. *)
Record header_parts : Type := mk_header_parts {
  hp_pad : list byte;
  hp_name : list byte;
  hp_desc : list byte
}.

Definition header_line (h : header_parts) : list byte :=
  GT :: hp_pad h ++ hp_name h ++ hp_desc h.

Definition header_ok (h : header_parts) : Prop :=
  Forall (fun c => isspace c = true /\ c <> LF) (hp_pad h) /\
  hp_name h <> [] /\
  Forall (fun c => isspace c = false /\ c <> NUL) (hp_name h) /\
  Forall (fun c => c <> LF) (hp_desc h) /\
  (hp_desc h = [] \/ isspace (deref (hp_desc h)) = true \/ deref (hp_desc h) = NUL) /\
  (length (header_line h) <= buff_size - 1)%nat.

(** A FASTA text of records, each a header line and the sequence text
    under it. *)
Definition record_text (r : header_parts * list byte) : list byte :=
  header_line (fst r) ++ LF :: snd r.

Definition records_text (rs : list (header_parts * list byte)) : list byte :=
  concat (record_text <$> rs).

(** The report line of one record. *)
Definition record_report (file : string) (r : header_parts * list byte) : report_line :=
  mk_report_line file (hp_name (fst r))
                 (Some (Z.of_nat (count_if is_acgt (snd r))))
                 (Some (Z.of_nat (count_if is_base_byte (snd r)))).

(** Records the loop reads as they are meant: good headers, sequence
    bytes, and every sequence text that another record follows is empty or
    ends with a line end, so that the next header begins a line. *)
Fixpoint records_ok (rs : list (header_parts * list byte)) : Prop :=
  match rs with
  | [] => True
  | r :: rs' =>
      header_ok (fst r) /\ Forall sequence_byte (snd r) /\
      (rs' = [] \/ snd r = [] \/ last (snd r) = Some LF) /\
      records_ok rs'
  end.

(** A record that another header line may follow: its sequence text is
    empty or ends with a line end. *)
Definition record_closed (r : header_parts * list byte) : Prop :=
  header_ok (fst r) /\ Forall sequence_byte (snd r) /\
  (snd r = [] \/ last (snd r) = Some LF).

(** **** [main] and its helpers *)

(** What the program writes to [log_os]: the lines of [get_seq_counts],
    the usage text, and the two errors of [main] and
    [check_get_seq_counts]. *)
Inductive main_log : Type :=
| LogScan (l : log_line)
| LogUsage
| LogOpenFailed (file : string)
| LogParseFailed (file : string).

(** The exit status: [EXIT_FAILURE] of [exit], or the 0 of leaving
    [main]. *)
Inductive status : Type := ExitSuccess | ExitFailure.

(** How a run of the program ends: with a status and what was written to
    [report_os] and [log_os], or in a read outside [isBase]. *)
Inductive run_end : Type :=
| Exited (st : status) (report_os : list report_line) (log_os : list main_log)
| BadRead (idx : Z)
| NoFuel.

(** [helpStr]. *)
Definition helpStr : list string := ["--help"; "-help"; "-h"].

(** [check_get_seq_counts] on the bytes of the stream [is], followed by
    the rest of the program [k]: the call returns when [get_seq_counts]
    succeeds and exits otherwise. *)
Definition check_get_seq_counts (bytes : list byte) (file : string)
    (report_os : list report_line) (log_os : list main_log)
    (k : list report_line -> list main_log -> run_end) : run_end :=
  match get_seq_counts (open_on bytes) file with
  | Done true r l => k (report_os ++ r) (log_os ++ (LogScan <$> l))
  | Done false r l =>
      Exited ExitFailure (report_os ++ r)
             (log_os ++ (LogScan <$> l) ++ [LogParseFailed file])
  | OutOfBounds idx => BadRead idx
  | OutOfFuel => NoFuel
  end.

(** The [for] loop of [main] from index [i] on; [fs] gives the bytes of
    the files that can be opened. *)
Fixpoint main_loop (fs : gmap string (list byte)) (i : nat) (args : list string)
    (report_os : list report_line) (log_os : list main_log) : run_end :=
  match args with
  | [] => Exited ExitSuccess report_os log_os
  | a :: args' =>
      if (i =? 1)%nat && bool_decide (a ∈ helpStr)
      then Exited ExitFailure report_os (log_os ++ [LogUsage])
      else match fs !! a with
           | None => Exited ExitFailure report_os (log_os ++ [LogOpenFailed a])
           | Some bytes =>
               check_get_seq_counts bytes a report_os log_os
                 (main_loop fs (S i) args')
           end
  end.

(** [main], given the arguments after the program name, the bytes of the
    standard input and the files. *)
Definition main (fs : gmap string (list byte)) (stdin : list byte)
    (args : list string) : run_end :=
  match args with
  | [] => check_get_seq_counts stdin "stdin" [] [] (Exited ExitSuccess)
  | _ => main_loop fs 1 args [] []
  end.

(** What one file contributes to the report when it is read to its
    end. *)
Definition file_report (fs : gmap string (list byte)) (file : string)
    : list report_line :=
  match fs !! file with
  | Some bytes =>
      match get_seq_counts (open_on bytes) file with
      | Done _ r _ => r
      | _ => []
      end
  | None => []
  end.

(** A file that opens and is counted without an error. *)
Definition file_good (fs : gmap string (list byte)) (file : string) : Prop :=
  exists bytes r,
    fs !! file = Some bytes /\ get_seq_counts (open_on bytes) file = Done true r [].

End CountFastaBases.

(** * Properties *)

Lemma wrap_unsigned_range z : 0 <= wrap_unsigned z < UINT_MODULUS.
Proof. unfold wrap_unsigned, UINT_MODULUS. apply Z.mod_pos_bound. lia. Qed.

Lemma wrap_unsigned_small z : 0 <= z < UINT_MODULUS -> wrap_unsigned z = z.
Proof. intros H. unfold wrap_unsigned. by apply Z.mod_small. Qed.

Lemma wrap_unsigned_succ z : wrap_unsigned (wrap_unsigned z + 1) = wrap_unsigned (z + 1).
Proof.
  unfold wrap_unsigned, UINT_MODULUS.
  rewrite Z.add_mod_idemp_l; [done | lia].
Qed.

(** ** The position ledger *)

Module DepthBufferFacts.
Import DepthBuffer.

Lemma val_of_lookup d pos : val_of d pos = default 0 (_data d !! pos).
Proof. unfold val_of, val. by destruct (_data d !! pos). Qed.

Lemma val_keeps_object pos d : after (val pos) d = d.
Proof. unfold after, val. by destruct (_data d !! pos). Qed.

Lemma inc_lookup_eq pos d :
  _data (after (inc pos) d) !! pos =
    Some (match _data d !! pos with
          | None => 1
          | Some v => wrap_unsigned (v + 1)
          end).
Proof.
  unfold after, inc. destruct (_data d !! pos); simpl; apply lookup_insert_eq.
Qed.

Lemma inc_lookup_ne pos pos' d :
  pos <> pos' -> _data (after (inc pos) d) !! pos' = _data d !! pos'.
Proof.
  intros Hne. unfold after, inc.
  destruct (_data d !! pos); simpl; by apply lookup_insert_ne.
Qed.

Lemma clear_lookup_eq pos d : _data (after (clear_pos pos) d) !! pos = None.
Proof. unfold after, clear_pos. simpl. apply lookup_delete_eq. Qed.

Lemma clear_lookup_ne pos pos' d :
  pos <> pos' -> _data (after (clear_pos pos) d) !! pos' = _data d !! pos'.
Proof. intros Hne. unfold after, clear_pos. simpl. by apply lookup_delete_ne. Qed.

Lemma entry_for_succ n :
  0 <= n ->
  Some (match entry_for n with
        | None => 1
        | Some v => wrap_unsigned (v + 1)
        end) = entry_for (n + 1).
Proof.
  intros Hn. unfold entry_for.
  destruct (decide (n = 0)) as [->|Hz]; destruct (decide _) as [E|_]; try lia.
  - done.
  - by rewrite wrap_unsigned_succ.
Qed.

(** The entry of [pos] follows the number of pending increments. *)
Lemma run_entry pos cs : forall d n,
  0 <= n ->
  _data d !! pos = entry_for n ->
  0 <= pending pos cs n /\
  _data (run cs d) !! pos = entry_for (pending pos cs n).
Proof.
  induction cs as [|c cs IH]; intros d n Hn Hd; [done|].
  destruct c as [p|p|p]; simpl.
  - apply IH; [done|]. by rewrite val_keeps_object.
  - destruct (decide (p = pos)) as [->|Hne]; apply IH; try lia.
    + rewrite inc_lookup_eq, Hd. by apply entry_for_succ.
    + by rewrite inc_lookup_ne.
  - destruct (decide (p = pos)) as [->|Hne]; apply IH; try lia.
    + by rewrite clear_lookup_eq.
    + by rewrite clear_lookup_ne.
Qed.

Lemma run_entry_empty pos cs :
  0 <= pending pos cs 0 /\
  _data (run cs empty) !! pos = entry_for (pending pos cs 0).
Proof. by apply run_entry. Qed.

Lemma val_of_run pos cs :
  val_of (run cs empty) pos = wrap_unsigned (pending pos cs 0).
Proof.
  destruct (run_entry_empty pos cs) as [_ E].
  rewrite val_of_lookup, E. unfold entry_for.
  by destruct (decide _) as [->|_].
Qed.

Lemma pending_no_inc pos cs : forall n,
  CInc pos ∉ cs -> pending pos cs n = n \/ pending pos cs n = 0.
Proof.
  induction cs as [|c cs IH]; intros n Hni; simpl; [by left|].
  apply not_elem_of_cons in Hni as [Hc Hcs].
  destruct c as [p|p|p].
  - by apply IH.
  - destruct (decide (p = pos)) as [->|_]; [done | by apply IH].
  - destruct (decide (p = pos)) as [->|_]; [|by apply IH].
    destruct (IH 0 Hcs); by right.
Qed.

Lemma pending_no_clear pos cs : forall n,
  CClear pos ∉ cs -> pending pos cs n = n + count_inc pos cs.
Proof.
  induction cs as [|c cs IH]; intros n Hni; simpl; [lia|].
  apply not_elem_of_cons in Hni as [Hc Hcs].
  destruct c as [p|p|p].
  - by apply IH.
  - rewrite IH by done. destruct (decide (p = pos)); lia.
  - destruct (decide (p = pos)) as [->|_]; [done | by apply IH].
Qed.

Lemma count_inc_nonneg pos cs : 0 <= count_inc pos cs.
Proof.
  induction cs as [|[p|p|p] cs IH]; simpl; try lia.
  destruct (decide (p = pos)); lia.
Qed.

(** [n] consecutive increments are a run of [n] calls. *)
Lemma inc_times_succ n pos d :
  inc_times (N.succ n) pos d = after (inc pos) (inc_times n pos d).
Proof. unfold inc_times. apply N.iter_succ. Qed.

Lemma inc_times_entry pos n d :
  _data (inc_times (N.succ n) pos d) !! pos =
    Some (match _data d !! pos with
          | None => wrap_unsigned (Z.of_N n + 1)
          | Some v => wrap_unsigned (v + Z.of_N n + 1)
          end).
Proof.
  induction n as [|n IH] using N.peano_ind.
  - rewrite inc_times_succ. unfold inc_times. simpl.
    rewrite inc_lookup_eq. destruct (_data d !! pos); [|done].
    f_equal. f_equal. lia.
  - rewrite inc_times_succ, inc_lookup_eq, IH. f_equal.
    destruct (_data d !! pos); rewrite wrap_unsigned_succ; f_equal; lia.
Qed.

Lemma inc_times_is_run n pos d :
  inc_times n pos d = run (replicate (N.to_nat n) (CInc pos)) d.
Proof.
  induction n as [|n IH] using N.peano_ind; [done|].
  rewrite inc_times_succ, IH, N2Nat.inj_succ.
  unfold run. rewrite replicate_S_end, foldl_snoc. done.
Qed.

Lemma scenario_pending pos : pending pos scenario 0 < UINT_MODULUS.
Proof.
  unfold scenario, UINT_MODULUS. simpl. repeat case_decide; lia.
Defined.

(** C6, as stated, fails once the count no longer fits an [unsigned]:
    after [2^32] calls [inc(100)] on the fresh ledger, [val(100)] is [0]
    and not [2^32]. *)
Lemma val_after_2_pow_32_incs :
  val_of (inc_times 4294967296 100 empty) 100 = 0 /\
  val_of (inc_times 4294967296 100 empty) 100 ≠ 4294967296.
Proof.
  assert (E : val_of (inc_times 4294967296 100 empty) 100 = 0).
  { replace 4294967296%N with (N.succ 4294967295) by reflexivity.
    rewrite val_of_lookup, inc_times_entry. reflexivity. }
  rewrite E. split; [reflexivity | discriminate].
Qed.

(** C6 (amended). On a ledger reached from the fresh one by any calls:
    [val(c)] is [0] when [c] was never incremented; when [c] was never
    evicted, [val(c)] is the number [n] of [inc(c)] calls reduced modulo
    [2^32], hence [n] itself whenever [n < 2^32]; and in general [val(c)]
    is, modulo [2^32], the number of [inc(c)] calls since the last
    [clear_pos(c)]. *)
Theorem val_counts_incs (cs : list call) (c : pos_t) :
  (CInc c ∉ cs -> val_of (run cs empty) c = 0) /\
  (CClear c ∉ cs ->
     val_of (run cs empty) c = wrap_unsigned (count_inc c cs)) /\
  (CClear c ∉ cs -> count_inc c cs < UINT_MODULUS ->
     val_of (run cs empty) c = count_inc c cs) /\
  val_of (run cs empty) c = wrap_unsigned (pending c cs 0).
Proof.
  rewrite val_of_run. split; [|split; [|split; [|done]]].
  - intros Hni. destruct (pending_no_inc c cs 0 Hni) as [-> | ->]; done.
  - intros Hnc. by rewrite pending_no_clear.
  - intros Hnc Hlt. rewrite pending_no_clear by done.
    apply wrap_unsigned_small. pose proof (count_inc_nonneg c cs). lia.
Qed.

Lemma val_counts_incs_witness :
  (CInc 7 ∉ [CInc 100; CInc 101; CVal 7; CInc 100; CClear 101]) /\
  (CClear 100 ∉ [CInc 100; CInc 101; CVal 7; CInc 100; CClear 101]) /\
  count_inc 100 [CInc 100; CInc 101; CVal 7; CInc 100; CClear 101] < UINT_MODULUS /\
  val_of (run [CInc 100; CInc 101; CVal 7; CInc 100; CClear 101] empty) 7 = 0 /\
  val_of (run [CInc 100; CInc 101; CVal 7; CInc 100; CClear 101] empty) 100 = 2.
Proof.
  assert (H1 : CInc 7 ∉ [CInc 100; CInc 101; CVal 7; CInc 100; CClear 101]).
  { intros H. repeat (apply elem_of_cons in H as [H|H]; [discriminate H|]).
    by apply elem_of_nil in H. }
  assert (H2 : CClear 100 ∉ [CInc 100; CInc 101; CVal 7; CInc 100; CClear 101]).
  { intros H. repeat (apply elem_of_cons in H as [H|H]; [discriminate H|]).
    by apply elem_of_nil in H. }
  assert (H3 : count_inc 100 [CInc 100; CInc 101; CVal 7; CInc 100; CClear 101]
               < UINT_MODULUS) by reflexivity.
  split; [exact H1|]. split; [exact H2|]. split; [exact H3|]. split.
  - exact (proj1 (val_counts_incs _ 7) H1).
  - exact (proj1 (proj2 (proj2 (val_counts_incs _ 100))) H2 H3).
Defined.

(** C7. After [clear_pos(c)], [val(c)] is [0]; a following [inc(c)]
    leaves the ledger that [inc(c)] leaves on any ledger without [c], with
    [c] at [1]; and every other coordinate reads as before the eviction. *)
Theorem clear_pos_forgets (d : depth_buffer) (c : pos_t) :
  val_of (after (clear_pos c) d) c = 0 /\
  val_of (after (inc c) (after (clear_pos c) d)) c = 1 /\
  _data (after (inc c) (after (clear_pos c) d)) = <[c := 1]> (delete c (_data d)) /\
  (forall c', c' <> c -> val_of (after (clear_pos c) d) c' = val_of d c').
Proof.
  repeat split.
  - by rewrite val_of_lookup, clear_lookup_eq.
  - by rewrite val_of_lookup, inc_lookup_eq, clear_lookup_eq.
  - unfold after at 1. unfold inc. by rewrite clear_lookup_eq.
  - intros c' Hne. by rewrite !val_of_lookup, clear_lookup_ne.
Qed.

Lemma clear_pos_forgets_witness :
  val_of (after (clear_pos 100) (run [CInc 100; CInc 101; CInc 102] empty)) 100 = 0 /\
  val_of (after (clear_pos 100) (run [CInc 100; CInc 101; CInc 102] empty)) 101 = 1 /\
  val_of (after (clear_pos 100) (run [CInc 100; CInc 101; CInc 102] empty)) 102 = 1.
Proof.
  pose proof (clear_pos_forgets (run [CInc 100; CInc 101; CInc 102] empty) 100)
    as (H0 & _ & _ & Hother).
  split; [exact H0|]. split.
  - rewrite (Hother 101) by discriminate. reflexivity.
  - rewrite (Hother 102) by discriminate. reflexivity.
Defined.

(** C8, as stated, fails: the ledger reached by [2^32] calls [inc(100)]
    stores the value [0] at 100. *)
Lemma zero_entry_after_2_pow_32_incs :
  _data (inc_times 4294967296 100 empty) !! 100 = Some 0 /\
  ~ no_zero_entry (inc_times 4294967296 100 empty).
Proof.
  assert (E : _data (inc_times 4294967296 100 empty) !! 100 = Some 0).
  { replace 4294967296%N with (N.succ 4294967295) by reflexivity.
    rewrite inc_times_entry. reflexivity. }
  split; [exact E|]. intros Hinv. by apply (Hinv 100 0 E).
Qed.

(** C8 (amended). A ledger reached from the fresh one by [val], [inc]
    and [clear_pos] calls, no coordinate having [2^32] or more increments
    since its last eviction, stores no zero: a key is absent exactly when
    [val] reads [0] there, which is exactly when no increment of it is
    pending. And [val] leaves every ledger as it found it. *)
Theorem reachable_stores_no_zero (cs : list call) :
  (forall c, pending c cs 0 < UINT_MODULUS) ->
  no_zero_entry (run cs empty) /\
  (forall c, _data (run cs empty) !! c = None <-> val_of (run cs empty) c = 0) /\
  (forall c, _data (run cs empty) !! c = None <-> pending c cs 0 = 0) /\
  (forall c d, after (val c) d = d /\ perform (CVal c) d = d).
Proof.
  intros Hbound.
  assert (Hnz : no_zero_entry (run cs empty)).
  { intros c v Hv ->. destruct (run_entry_empty c cs) as [Hp E].
    rewrite E in Hv. unfold entry_for in Hv.
    destruct (decide _) as [|Hne]; [done|]. inversion Hv as [Hw].
    rewrite wrap_unsigned_small in Hw by (specialize (Hbound c); lia). done. }
  split; [exact Hnz|]. split.
  - intros c. rewrite val_of_lookup. split; [by intros ->|].
    destruct (_data (run cs empty) !! c) as [v|] eqn:E; [|done].
    simpl. intros ->. by destruct (Hnz c 0 E).
  - split; [|intros c d; split; apply val_keeps_object].
    intros c. destruct (run_entry_empty c cs) as [_ ->]. unfold entry_for.
    destruct (decide _); [done|]. split; [discriminate | done].
Qed.

Lemma reachable_stores_no_zero_witness :
  (forall c, pending c scenario 0 < UINT_MODULUS) /\
  no_zero_entry (run scenario empty).
Proof.
  split; [exact scenario_pending|].
  exact (proj1 (reachable_stores_no_zero scenario scenario_pending)).
Defined.

(** *** How the operations compose *)

Lemma depth_buffer_eq (d d' : depth_buffer) : _data d = _data d' -> d = d'.
Proof. destruct d, d'. simpl. by intros ->. Qed.

Lemma inc_data pos d :
  _data (after (inc pos) d)
    = <[pos := match _data d !! pos with
               | None => 1
               | Some v => wrap_unsigned (v + 1)
               end]> (_data d).
Proof. unfold after, inc. by destruct (_data d !! pos). Qed.

Lemma clear_data pos d : _data (after (clear_pos pos) d) = delete pos (_data d).
Proof. reflexivity. Qed.

(** X1. One [inc(c)] moves [val(c)] to its successor modulo [2^32] and
    leaves the value read at every other coordinate as it was. *)
Theorem inc_adds_one (d : depth_buffer) (c : pos_t) :
  val_of (after (inc c) d) c = wrap_unsigned (val_of d c + 1) /\
  (forall c', c' <> c -> val_of (after (inc c) d) c' = val_of d c').
Proof.
  split.
  - rewrite !val_of_lookup, inc_lookup_eq. by destruct (_data d !! c).
  - intros c' Hne. by rewrite !val_of_lookup, inc_lookup_ne.
Qed.

Lemma inc_adds_one_witness :
  val_of (after (inc 100) (run [CInc 100; CInc 101] empty)) 100 = 2 /\
  val_of (after (inc 100) (run [CInc 100; CInc 101] empty)) 101 = 1.
Proof.
  pose proof (inc_adds_one (run [CInc 100; CInc 101] empty) 100) as [Hc Hother].
  split; [exact Hc|].
  rewrite (Hother 101) by discriminate. reflexivity.
Defined.

(** X2. Calls on two different coordinates commute: whichever of the two
    is made first, the ledger afterwards is the same. *)
Theorem distinct_coordinates_commute (d : depth_buffer) (c c' : pos_t) :
  c <> c' ->
  after (inc c) (after (inc c') d) = after (inc c') (after (inc c) d) /\
  after (inc c) (after (clear_pos c') d) = after (clear_pos c') (after (inc c) d) /\
  after (clear_pos c) (after (clear_pos c') d)
    = after (clear_pos c') (after (clear_pos c) d).
Proof.
  intros Hne. repeat split; apply depth_buffer_eq.
  - rewrite !inc_data, !lookup_insert_ne by done. by apply insert_insert_ne.
  - rewrite inc_data, !clear_data, inc_data, lookup_delete_ne by done.
    symmetry. by apply delete_insert_ne.
  - rewrite !clear_data. apply delete_delete.
Qed.

Lemma distinct_coordinates_commute_witness :
  (100 : Z) <> 101 /\
  after (inc 100) (after (inc 101) empty) = after (inc 101) (after (inc 100) empty).
Proof.
  assert (H : (100 : Z) <> 101) by discriminate.
  split; [exact H|]. exact (proj1 (distinct_coordinates_commute empty 100 101 H)).
Defined.

(** X3. Eviction is final and idempotent: [clear_pos(c)] after [inc(c)]
    leaves what [clear_pos(c)] alone leaves, a second [clear_pos(c)]
    changes nothing, and on a ledger without [c] the call changes
    nothing. *)
Theorem clear_pos_absorbs (d : depth_buffer) (c : pos_t) :
  after (clear_pos c) (after (inc c) d) = after (clear_pos c) d /\
  after (clear_pos c) (after (clear_pos c) d) = after (clear_pos c) d /\
  (_data d !! c = None -> after (clear_pos c) d = d).
Proof.
  repeat split.
  - apply depth_buffer_eq. rewrite !clear_data, inc_data. apply delete_insert_eq.
  - apply depth_buffer_eq. rewrite !clear_data. apply delete_delete_eq.
  - intros Hnone. apply depth_buffer_eq. rewrite clear_data. by apply delete_id.
Qed.

Lemma clear_pos_absorbs_witness :
  _data (run [CInc 101] empty) !! 100 = None /\
  after (clear_pos 100) (run [CInc 101] empty) = run [CInc 101] empty.
Proof.
  assert (H : _data (run [CInc 101] empty) !! 100 = None) by reflexivity.
  split; [exact H|].
  exact (proj2 (proj2 (clear_pos_absorbs (run [CInc 101] empty) 100)) H).
Defined.

(** X4. The ledger reached from the fresh one depends on the calls only
    through the number of increments pending at each coordinate: call
    sequences that agree on these numbers reach the same ledger, and every
    value it stores is that number modulo [2^32], within the range of an
    [unsigned], at a coordinate with an increment pending. *)
Theorem ledger_determined_by_pending (cs cs' : list call) :
  (forall c, pending c cs 0 = pending c cs' 0) ->
  run cs empty = run cs' empty /\
  (forall c v, _data (run cs empty) !! c = Some v ->
     0 < pending c cs 0 /\ v = wrap_unsigned (pending c cs 0) /\
     0 <= v < UINT_MODULUS).
Proof.
  intros Hsame. split.
  - apply depth_buffer_eq, map_eq. intros c.
    destruct (run_entry_empty c cs) as [_ ->].
    destruct (run_entry_empty c cs') as [_ ->]. by rewrite Hsame.
  - intros c v. destruct (run_entry_empty c cs) as [Hp ->]. unfold entry_for.
    destruct (decide _) as [|Hnz]; [done|]. intros [= <-].
    split; [lia|]. split; [done | apply wrap_unsigned_range].
Qed.

Lemma ledger_determined_by_pending_witness :
  (forall c, pending c [CInc 100; CInc 101; CClear 100] 0
             = pending c [CVal 7; CInc 101] 0) /\
  run [CInc 100; CInc 101; CClear 100] empty = run [CVal 7; CInc 101] empty.
Proof.
  assert (H : forall c, pending c [CInc 100; CInc 101; CClear 100] 0
                        = pending c [CVal 7; CInc 101] 0).
  { intros c. simpl. repeat case_decide; lia. }
  split; [exact H|].
  exact (proj1 (ledger_determined_by_pending _ _ H)).
Defined.

End DepthBufferFacts.

(** ** The stage gate *)

Module PosProcessorFacts.
Import PosProcessor.

Section gate.
Context {D : Type} `{HP : Processor D}.

Lemma check_suppressed stage_no pos (p : pos_processor_base D) log :
  _is_skip_process_pos p = true ->
  check_process_pos stage_no pos (p, log) = (p, log).
Proof. intros Hs. unfold check_process_pos. by rewrite Hs. Qed.

Lemma check_active stage_no pos (p : pos_processor_base D) log :
  _is_skip_process_pos p = false ->
  check_process_pos stage_no pos (p, log) =
    (process_pos stage_no pos p, log ++ [mk_hook_call stage_no pos]).
Proof. intros Hs. unfold check_process_pos. by rewrite Hs. Qed.

Lemma suppressed_dispatch (reqs : list (Z * pos_t))
    (p : pos_processor_base D) log :
  _is_skip_process_pos p = true ->
  dispatch_all reqs (p, log) = (p, log).
Proof.
  intros Hs. unfold dispatch_all.
  induction reqs as [|[stage_no pos] reqs IH]; cbn [foldl fst snd]; [done|].
  by rewrite check_suppressed.
Qed.

(** C4. While the skip flag is set, a [check_process_pos] call changes
    neither the processor nor the record of hook invocations, whatever
    [stage_no] and [pos] are, and so does any series of such calls: the
    hook is not invoked and the flag stays set. *)
Theorem suppressed_never_invokes_hook
    (p : pos_processor_base D) (log : list hook_call) (reqs : list (Z * pos_t)) :
  _is_skip_process_pos p = true ->
  (forall stage_no pos, check_process_pos stage_no pos (p, log) = (p, log)) /\
  dispatch_all reqs (p, log) = (p, log).
Proof.
  intros Hs. split.
  - intros stage_no pos. by apply check_suppressed.
  - by apply suppressed_dispatch.
Qed.

(** C5. A newly constructed processor has the flag clear, and on a
    processor with the flag clear a [check_process_pos] call is one
    invocation of the hook, on the arguments of the call: the processor
    afterwards is the one the hook leaves, and the record of invocations
    grows by exactly that one entry. *)
Theorem active_invokes_hook_once
    (d : D) (p : pos_processor_base D) (log : list hook_call)
    (stage_no : Z) (pos : pos_t) :
  _is_skip_process_pos p = false ->
  _is_skip_process_pos (construct d) = false /\
  check_process_pos stage_no pos (p, log) =
    (process_pos stage_no pos p, log ++ [mk_hook_call stage_no pos]) /\
  length (snd (check_process_pos stage_no pos (p, log))) = S (length log).
Proof.
  intros Hs. split; [done|].
  rewrite check_active by done. split; [done|].
  simpl. rewrite length_app. simpl. lia.
Qed.

End gate.

(** A hook may set the flag itself: of a series of calls on such a
    processor only the first reaches the hook. *)
Lemma one_shot_runs_once stage_no pos (reqs : list (Z * pos_t)) :
  dispatch_all (H := one_shot) ((stage_no, pos) :: reqs) (construct (), [])
    = (set_skip true (construct ()), [mk_hook_call stage_no pos]).
Proof.
  unfold dispatch_all. cbn [foldl fst snd].
  rewrite (check_active (HP := one_shot)) by done.
  apply (suppressed_dispatch (HP := one_shot)). done.
Qed.

Lemma suppressed_never_invokes_hook_witness :
  _is_skip_process_pos (set_skip true (construct 0%nat)) = true /\
  dispatch_all (H := counting_stub) [(0, 100); (1, 100); (0, 101)]
               (set_skip true (construct 0%nat), []) =
    (set_skip true (construct 0%nat), []).
Proof.
  split; [reflexivity|].
  exact (proj2 (suppressed_never_invokes_hook (HP := counting_stub)
                  (set_skip true (construct 0%nat)) []
                  [(0, 100); (1, 100); (0, 101)] eq_refl)).
Defined.

Lemma active_invokes_hook_once_witness :
  _is_skip_process_pos (construct 0%nat) = false /\
  check_process_pos (H := counting_stub) 3 100 (construct 0%nat, []) =
    (mk_pos_processor_base false 1%nat, [mk_hook_call 3 100]).
Proof.
  split; [reflexivity|].
  exact (proj1 (proj2 (active_invokes_hook_once (HP := counting_stub)
                         0%nat (construct 0%nat) [] 3 100 eq_refl))).
Defined.

(** *** Series of calls *)

Section series.
Context {D : Type} `{HP : Processor D}.

Lemma dispatch_all_cons stage_no pos reqs (t : traced D) :
  dispatch_all ((stage_no, pos) :: reqs) t
    = dispatch_all reqs (check_process_pos stage_no pos t).
Proof. reflexivity. Qed.



Lemma dispatch_all_sublist reqs : forall (p : pos_processor_base D) log,
  exists added,
    snd (dispatch_all reqs (p, log)) = log ++ added /\
    added `sublist_of` requested reqs.
Proof.
  induction reqs as [|[stage_no pos] reqs IH]; intros p log.
  - exists []. split; [by rewrite app_nil_r | done].
  - rewrite dispatch_all_cons. destruct (_is_skip_process_pos p) eqn:Hs.
    + rewrite check_suppressed by done. destruct (IH p log) as (added & -> & Hsub).
      exists added. split; [done|]. by apply sublist_cons.
    + rewrite check_active by done.
      destruct (IH (process_pos stage_no pos p) (log ++ [mk_hook_call stage_no pos]))
        as (added & -> & Hsub).
      exists (mk_hook_call stage_no pos :: added).
      split; [by rewrite <- app_assoc | by apply sublist_skip].
Qed.

(** X5. When the hook leaves the flag as it finds it, a series of calls
    on a processor with the flag clear reaches the hook once for each call,
    in the order of the calls and with their arguments, and ends with the
    flag clear. *)
Theorem steady_hook_sees_every_call
    (p : pos_processor_base D) (log : list hook_call) (reqs : list (Z * pos_t)) :
  (forall stage_no pos q,
     _is_skip_process_pos (process_pos stage_no pos q) = _is_skip_process_pos q) ->
  _is_skip_process_pos p = false ->
  snd (dispatch_all reqs (p, log)) = log ++ requested reqs /\
  _is_skip_process_pos (fst (dispatch_all reqs (p, log))) = false.
Proof.
  intros Hsteady. revert p log.
  induction reqs as [|[stage_no pos] reqs IH]; intros p log Hs.
  - split; [|done]. simpl. by rewrite app_nil_r.
  - rewrite dispatch_all_cons, check_active by done.
    destruct (IH (process_pos stage_no pos p) (log ++ [mk_hook_call stage_no pos]))
      as [-> Hend]; [by rewrite Hsteady|].
    split; [by rewrite <- app_assoc | done].
Qed.

(** X6. Whatever the hook does, a series of calls only appends to the
    record of invocations, and what it appends is taken from the calls of
    the series in their order, none twice and none invented: at most one
    invocation for each call. *)
Theorem invocations_follow_the_calls
    (p : pos_processor_base D) (log : list hook_call) (reqs : list (Z * pos_t)) :
  exists added,
    snd (dispatch_all reqs (p, log)) = log ++ added /\
    added `sublist_of` requested reqs /\
    (length added <= length reqs)%nat.
Proof.
  destruct (dispatch_all_sublist reqs p log) as (added & Hlog & Hsub).
  exists added. split; [done|]. split; [done|].
  apply sublist_length in Hsub. unfold requested in Hsub.
  by rewrite length_fmap in Hsub.
Qed.

(** X7. A series of calls that ends with the flag clear began with it
    clear and lost no call: the hook was reached for every one of them, in
    order. *)
Theorem clear_at_end_means_none_skipped
    (p : pos_processor_base D) (log : list hook_call) (reqs : list (Z * pos_t)) :
  _is_skip_process_pos (fst (dispatch_all reqs (p, log))) = false ->
  _is_skip_process_pos p = false /\
  snd (dispatch_all reqs (p, log)) = log ++ requested reqs.
Proof.
  revert p log.
  induction reqs as [|[stage_no pos] reqs IH]; intros p log Hend.
  - split; [done|]. simpl. by rewrite app_nil_r.
  - destruct (_is_skip_process_pos p) eqn:Hs.
    + rewrite (suppressed_dispatch _ _ _ Hs) in Hend. simpl in Hend. congruence.
    + split; [done|]. rewrite dispatch_all_cons, check_active in * by done.
      apply IH in Hend as [_ ->]. by rewrite <- app_assoc.
Qed.

End series.

Lemma steady_hook_sees_every_call_witness :
  (forall stage_no pos q,
     _is_skip_process_pos (process_pos (Processor := counting_stub) stage_no pos q)
       = _is_skip_process_pos q) /\
  _is_skip_process_pos (construct 0%nat) = false /\
  snd (dispatch_all (H := counting_stub) [(0, 100); (1, 100); (0, 101)]
                    (construct 0%nat, []))
    = [mk_hook_call 0 100; mk_hook_call 1 100; mk_hook_call 0 101].
Proof.
  assert (Hsteady : forall stage_no pos q,
            _is_skip_process_pos (process_pos (Processor := counting_stub) stage_no pos q)
              = _is_skip_process_pos q) by reflexivity.
  split; [exact Hsteady|]. split; [reflexivity|].
  exact (proj1 (steady_hook_sees_every_call (HP := counting_stub)
                  (construct 0%nat) [] [(0, 100); (1, 100); (0, 101)]
                  Hsteady eq_refl)).
Defined.

Lemma clear_at_end_means_none_skipped_witness :
  _is_skip_process_pos
    (fst (dispatch_all (H := counting_stub) [(0, 100); (1, 100)] (construct 0%nat, [])))
    = false /\
  snd (dispatch_all (H := counting_stub) [(0, 100); (1, 100)] (construct 0%nat, []))
    = [mk_hook_call 0 100; mk_hook_call 1 100].
Proof.
  assert (H : _is_skip_process_pos
                (fst (dispatch_all (H := counting_stub) [(0, 100); (1, 100)]
                                   (construct 0%nat, []))) = false) by reflexivity.
  split; [exact H|].
  exact (proj2 (clear_at_end_means_none_skipped (HP := counting_stub)
                  (construct 0%nat) [] [(0, 100); (1, 100)] H)).
Defined.

End PosProcessorFacts.

(** ** The concordance predicate *)

Module SnpUtilFacts.
Import SnpUtil.

#[local] Arguments obs_id : simpl never.

(** *** What the loop visits *)

(** A size that fits the [unsigned]: every entry is visited. *)
Lemma visited_all (pi : snp_pos_info) :
  Z.of_nat (length (calls pi)) < UINT_MODULUS -> visited pi = calls pi.
Proof.
  intros Hlen. unfold visited, n_calls, wrap_unsigned.
  rewrite Z.mod_small by lia. rewrite Nat2Z.id. apply take_ge. lia.
Qed.

(** In general the loop visits a prefix of the entries. *)
Lemma visited_prefix (pi : snp_pos_info) :
  visited pi `prefix_of` calls pi /\
  Z.of_nat (length (visited pi)) = Z.of_nat (length (calls pi)) mod UINT_MODULUS.
Proof.
  split; [apply prefix_take|].
  unfold visited, n_calls, wrap_unsigned. rewrite length_take.
  assert (H : 0 <= Z.of_nat (length (calls pi)) mod UINT_MODULUS
                <= Z.of_nat (length (calls pi))).
  { split; [apply Z.mod_pos_bound; reflexivity|].
    apply Z.mod_le; [lia | reflexivity]. }
  lia.
Qed.

(** An identifier that fits [uint8_t] is observed as it is. *)
Lemma obs_id_fits (c : base_call) :
  0 <= base_id c < UINT8_MODULUS -> obs_id c = base_id c.
Proof. intros H. unfold obs_id. by apply Z.mod_small. Qed.

(** Of [2^32] entries the loop visits none. *)
Lemma flood_visits_nothing (id : Z) : visited (flood id) = [].
Proof.
  unfold visited, n_calls, flood. cbn [calls].
  rewrite length_replicate, Z2Nat.id by discriminate.
  unfold wrap_unsigned. rewrite Z_mod_same_full. reflexivity.
Qed.

Lemma flood_size (id : Z) : Z.of_nat (length (calls (flood id))) = 4294967296.
Proof. unfold flood. cbn [calls]. rewrite length_replicate. by apply Z2Nat.id. Qed.

Lemma flood_entries (id : Z) (c : base_call) :
  c ∈ calls (flood id) <-> c = mk_base_call id.
Proof.
  unfold flood. cbn [calls]. rewrite elem_of_replicate.
  split; [by intros [-> _] | intros ->]. split; [reflexivity|].
  intros H. apply (f_equal Z.of_nat) in H. rewrite Z2Nat.id in H by discriminate.
  discriminate H.
Qed.

Lemma forallb_matches (ref_gt : Z) (cs : list base_call) :
  forallb (matches ref_gt) cs = true <-> forall c, c ∈ cs -> obs_id c = ref_gt.
Proof.
  rewrite forallb_forall. unfold matches. split; intros H c Hc.
  - apply list_elem_of_In, H in Hc. apply Z.eqb_eq in Hc. done.
  - apply Z.eqb_eq. symmetry. by apply H, list_elem_of_In.
Qed.

Section allref.
Variable ANY : Z.
Variable ndebug : bool.

(** Without the sentinel among the entries the loop is [forallb]. *)
Lemma allref_loop_forallb ref_gt cs : forall i,
  Forall (fun c => obs_id c <> ANY) cs ->
  fst (allref_loop ANY ndebug ref_gt cs i) = Returned (forallb (matches ref_gt) cs).
Proof.
  induction cs as [|c cs IH]; intros i Hok; [done|].
  apply Forall_cons in Hok as [Hc Hcs]. cbn [allref_loop forallb].
  apply Z.eqb_neq in Hc. rewrite Hc, andb_false_r. unfold matches at 1.
  destruct (ref_gt =? obs_id c); cbn [negb andb fst]; [by apply IH | done].
Qed.

(** The loop started at index [k] on entries that hold a mismatch at
    offset [i]. *)
Lemma allref_loop_mismatch ref_gt cs : forall i k c,
  cs !! i = Some c ->
  obs_id c <> ref_gt ->
  (snd (allref_loop ANY ndebug ref_gt cs k) <= k + S i)%nat /\
  fst (allref_loop ANY ndebug ref_gt cs k) <> Returned true /\
  (forall cs', take (S i) cs' = take (S i) cs ->
     allref_loop ANY ndebug ref_gt cs' k = allref_loop ANY ndebug ref_gt cs k).
Proof.
  induction cs as [|x cs IH]; intros i k c Hi Hc; [done|].
  assert (Hshape : forall cs', take (S i) cs' = take (S i) (x :: cs) ->
            exists cs'', cs' = x :: cs'' /\ take i cs'' = take i cs).
  { intros [|y cs''] E; cbn [take] in E; [done|]. inversion E; subst. by eexists. }
  cbn [allref_loop].
  destruct (negb ndebug && (obs_id x =? ANY)) eqn:Ha; cbn [fst snd].
  { split; [lia|]. split; [done|].
    intros cs' E. destruct (Hshape cs' E) as (cs'' & -> & _).
    cbn [allref_loop]. by rewrite Ha. }
  destruct (ref_gt =? obs_id x) eqn:Hm; cbn [negb fst snd].
  - destruct i as [|i]; cbn [lookup list_lookup] in Hi.
    { inversion Hi; subst x. apply Z.eqb_eq in Hm. congruence. }
    specialize (IH i (S k) c Hi Hc) as (IH1 & IH2 & IH3).
    split; [lia|]. split; [done|].
    intros cs' E. destruct (Hshape cs' E) as (cs'' & -> & E').
    cbn [allref_loop]. rewrite Ha, Hm. cbn [negb]. by apply IH3.
  - split; [lia|]. split; [done|].
    intros cs' E. destruct (Hshape cs' E) as (cs'' & -> & _).
    cbn [allref_loop]. by rewrite Ha, Hm.
Qed.

(** The same loop, told by the first mismatch: with it at offset [j], the
    loop reads at most the entries up to that one, and ends in the failed
    assertion or with [false] according to whether the assertion is
    compiled in and meets the sentinel at an offset up to [j]. *)
Lemma allref_loop_first_mismatch ref_gt cs : forall i k c,
  cs !! i = Some c ->
  obs_id c <> ref_gt ->
  exists j cj,
    (j <= i)%nat /\ cs !! j = Some cj /\ obs_id cj <> ref_gt /\
    Forall (fun x => obs_id x = ref_gt) (take j cs) /\
    (snd (allref_loop ANY ndebug ref_gt cs k) <= k + S j)%nat /\
    (ndebug = true \/ Forall (fun x => obs_id x <> ANY) (take (S j) cs) ->
       fst (allref_loop ANY ndebug ref_gt cs k) = Returned false) /\
    (ndebug = false -> Exists (fun x => obs_id x = ANY) (take (S j) cs) ->
       fst (allref_loop ANY ndebug ref_gt cs k) = AssertionFailed).
Proof.
  induction cs as [|x cs IH]; intros i k c Hi Hc; [done|].
  destruct (Z.eqb_spec ref_gt (obs_id x)) as [Hm|Hm].
  - (* the head matches: the first mismatch lies in the tail *)
    destruct i as [|i]; cbn [lookup list_lookup] in Hi.
    { inversion Hi; subst x. congruence. }
    destruct (IH i (S k) c Hi Hc) as (j & cj & Hj & Hcj & Hne & Hpre & Hrd & Hf & Ha).
    exists (S j), cj. split; [lia|]. split; [exact Hcj|]. split; [exact Hne|].
    split; [cbn [take]; constructor; [done | exact Hpre]|].
    cbn [allref_loop take].
    destruct (Z.eqb_spec (obs_id x) ANY) as [Hx|Hx]; destruct ndebug;
      cbn [negb andb fst snd].
    + rewrite <- Hm, Z.eqb_refl. cbn [negb].
      split; [lia|]. split; [intros _; apply Hf; by left | done].
    + split; [lia|]. split; [|done].
      intros [? | Hall]; [done|]. by apply Forall_cons in Hall as [? _].
    + rewrite <- Hm, Z.eqb_refl. cbn [negb].
      split; [lia|]. split; [intros _; apply Hf; by left | done].
    + rewrite <- Hm, Z.eqb_refl. cbn [negb].
      split; [lia|]. split.
      * intros [? | Hall]; [done|]. apply Hf. right.
        by apply Forall_cons in Hall as [_ ?].
      * intros _ Hex. apply Exists_cons in Hex as [? | Hex]; [done|]. by apply Ha.
  - (* the head is the first mismatch *)
    exists 0%nat, x. split; [lia|]. split; [done|]. split; [congruence|].
    split; [constructor|]. cbn [allref_loop take].
    destruct (Z.eqb_spec (obs_id x) ANY) as [Hx|Hx]; destruct ndebug;
      cbn [negb andb fst snd].
    + destruct (Z.eqb_spec ref_gt (obs_id x)); [done|]. cbn [negb fst snd].
      split; [lia|]. split; done.
    + split; [lia|]. split; [|done].
      intros [? | Hall]; [done|]. by apply Forall_cons in Hall as [? _].
    + destruct (Z.eqb_spec ref_gt (obs_id x)); [done|]. cbn [negb fst snd].
      split; [lia|]. split; done.
    + destruct (Z.eqb_spec ref_gt (obs_id x)); [done|]. cbn [negb fst snd].
      split; [lia|]. split; [done|].
      intros _ Hex. apply Exists_cons in Hex as [? | Hex]; [done|].
      by apply Exists_nil in Hex.
Qed.

(** C3 (amended). When the evidence has fewer than [2^32] entries and
    none of them is observed as the sentinel, [is_spi_allref] returns, and
    what it returns is [true] exactly when every entry is observed equal
    to [ref_gt]; where the identifiers fit the [uint8_t] they are read
    into, that is when every [base_id] equals [ref_gt]. On empty evidence
    it returns [true] whatever the reference is. *)
Theorem is_spi_allref_iff_all_ref (pi : snp_pos_info) (ref_gt : Z) :
  Z.of_nat (length (calls pi)) < UINT_MODULUS ->
  (forall c, c ∈ calls pi -> obs_id c <> ANY) ->
  (exists b, is_spi_allref ANY ndebug pi ref_gt = Returned b /\
             (b = true <-> forall c, c ∈ calls pi -> obs_id c = ref_gt) /\
             ((forall c, c ∈ calls pi -> 0 <= base_id c < UINT8_MODULUS) ->
              (b = true <-> forall c, c ∈ calls pi -> base_id c = ref_gt))) /\
  (forall r, is_spi_allref ANY ndebug (mk_snp_pos_info []) r = Returned true).
Proof.
  intros Hlen Hok. split; [|done].
  exists (forallb (matches ref_gt) (calls pi)). split; [|split].
  - unfold is_spi_allref. rewrite (visited_all pi Hlen).
    apply allref_loop_forallb. by apply Forall_forall.
  - apply forallb_matches.
  - intros Hfit. rewrite forallb_matches.
    split; intros H c Hc.
    + rewrite <- (obs_id_fits c) by auto. auto.
    + rewrite obs_id_fits by auto. auto.
Qed.

(** C9 (amended). When the evidence has fewer than [2^32] entries and
    the entry at index [i] is observed different from [ref_gt], the call
    reads no entry after index [i] and does not return [true], and its
    outcome is that of any such evidence with the same entries up to
    index [i]: a sentinel after index [i] never makes the assertion fail.
    More exactly, with [j <= i] the index of the first entry that differs,
    no entry after index [j] is read; the call returns [false] when NDEBUG
    is defined or no entry up to index [j] is the sentinel, and it ends in
    the failed assertion when the assertion is compiled in and some entry
    up to index [j] is the sentinel. *)
Theorem allref_stops_at_mismatch
    (pi : snp_pos_info) (ref_gt : Z) (i : nat) (c : base_call) :
  Z.of_nat (length (calls pi)) < UINT_MODULUS ->
  calls pi !! i = Some c ->
  obs_id c <> ref_gt ->
  (entries_read ANY ndebug pi ref_gt <= S i)%nat /\
  is_spi_allref ANY ndebug pi ref_gt <> Returned true /\
  (forall pi', Z.of_nat (length (calls pi')) < UINT_MODULUS ->
     take (S i) (calls pi') = take (S i) (calls pi) ->
     is_spi_allref ANY ndebug pi' ref_gt = is_spi_allref ANY ndebug pi ref_gt /\
     entries_read ANY ndebug pi' ref_gt = entries_read ANY ndebug pi ref_gt) /\
  exists j cj,
    (j <= i)%nat /\ calls pi !! j = Some cj /\ obs_id cj <> ref_gt /\
    Forall (fun x => obs_id x = ref_gt) (take j (calls pi)) /\
    (entries_read ANY ndebug pi ref_gt <= S j)%nat /\
    (ndebug = true \/ Forall (fun x => obs_id x <> ANY) (take (S j) (calls pi)) ->
       is_spi_allref ANY ndebug pi ref_gt = Returned false) /\
    (ndebug = false -> Exists (fun x => obs_id x = ANY) (take (S j) (calls pi)) ->
       is_spi_allref ANY ndebug pi ref_gt = AssertionFailed).
Proof.
  intros Hlen Hi Hc. unfold is_spi_allref, entries_read.
  rewrite (visited_all pi Hlen).
  destruct (allref_loop_mismatch ref_gt (calls pi) i 0%nat c Hi Hc)
    as (H1 & H2 & H3).
  split; [exact H1|]. split; [exact H2|]. split.
  - intros pi' Hlen' E. rewrite (visited_all pi' Hlen'). by rewrite (H3 _ E).
  - exact (allref_loop_first_mismatch ref_gt (calls pi) i 0%nat c Hi Hc).
Qed.

End allref.

Lemma pileup_without_sentinel (ids : list Z) :
  forallb (fun z => negb (z mod UINT8_MODULUS =? BASE_ANY)) ids = true ->
  forall c, c ∈ calls (pileup ids) -> obs_id c <> BASE_ANY.
Proof.
  intros Hids c Hc. unfold pileup in Hc. cbn [calls] in Hc.
  apply list_elem_of_fmap in Hc as (z & -> & Hz). unfold obs_id. cbn [base_id].
  rewrite forallb_forall in Hids. apply list_elem_of_In, Hids in Hz.
  apply negb_true_iff, Z.eqb_neq in Hz. done.
Defined.

Lemma is_spi_allref_iff_all_ref_witness :
  Z.of_nat (length (calls (pileup [BASE_A; BASE_A; BASE_C]))) < UINT_MODULUS /\
  (forall c, c ∈ calls (pileup [BASE_A; BASE_A; BASE_C]) -> obs_id c <> BASE_ANY) /\
  exists b, is_spi_allref BASE_ANY false (pileup [BASE_A; BASE_A; BASE_C]) BASE_A
              = Returned b /\
            (b = true <->
             forall c, c ∈ calls (pileup [BASE_A; BASE_A; BASE_C]) -> obs_id c = BASE_A) /\
            ((forall c, c ∈ calls (pileup [BASE_A; BASE_A; BASE_C]) ->
                0 <= base_id c < UINT8_MODULUS) ->
             (b = true <->
              forall c, c ∈ calls (pileup [BASE_A; BASE_A; BASE_C]) -> base_id c = BASE_A)).
Proof.
  split; [reflexivity|].
  split; [exact (pileup_without_sentinel [BASE_A; BASE_A; BASE_C] eq_refl)|].
  exact (proj1 (is_spi_allref_iff_all_ref BASE_ANY false
                  (pileup [BASE_A; BASE_A; BASE_C]) BASE_A eq_refl
                  (pileup_without_sentinel [BASE_A; BASE_A; BASE_C] eq_refl))).
Defined.

(** C3, as stated, fails on evidence whose size does not fit the
    [unsigned] it is kept in: of [2^32] entries that all are C, none is
    the sentinel and none equals the reference A, yet the loop runs zero
    times and the call returns [true], with or without assertions. *)
Lemma flood_of_mismatches_returns_true :
  Z.of_nat (length (calls (flood BASE_C))) = UINT_MODULUS /\
  mk_base_call BASE_C ∈ calls (flood BASE_C) /\
  (forall c, c ∈ calls (flood BASE_C) -> obs_id c <> BASE_ANY /\ base_id c <> BASE_ANY) /\
  (forall c, c ∈ calls (flood BASE_C) -> obs_id c <> BASE_A /\ base_id c <> BASE_A) /\
  n_calls (flood BASE_C) = 0 /\
  is_spi_allref BASE_ANY false (flood BASE_C) BASE_A = Returned true /\
  is_spi_allref BASE_ANY true (flood BASE_C) BASE_A = Returned true.
Proof.
  split.
  { unfold flood. cbn [calls]. rewrite length_replicate. by apply Z2Nat.id. }
  split; [by apply flood_entries|].
  split; [intros c Hc; apply flood_entries in Hc as ->; split; discriminate|].
  split; [intros c Hc; apply flood_entries in Hc as ->; split; discriminate|].
  split.
  { unfold n_calls, flood. cbn [calls].
    rewrite length_replicate, Z2Nat.id by discriminate. reflexivity. }
  unfold is_spi_allref. rewrite flood_visits_nothing. split; reflexivity.
Qed.

(** C9, as stated, fails in a build with assertions: on the evidence
    [ANY, C] against reference A there is a non-reference call at index 1,
    and the call does not return [false]: the assertion fails at index 0. *)
Lemma sentinel_before_mismatch_asserts :
  calls (pileup [BASE_ANY; BASE_C]) !! 1%nat = Some (mk_base_call BASE_C) /\
  obs_id (mk_base_call BASE_C) <> BASE_A /\
  base_id (mk_base_call BASE_C) <> BASE_A /\
  is_spi_allref BASE_ANY false (pileup [BASE_ANY; BASE_C]) BASE_A = AssertionFailed /\
  is_spi_allref BASE_ANY false (pileup [BASE_ANY; BASE_C]) BASE_A <> Returned false.
Proof.
  split; [reflexivity|]. split; [discriminate|]. split; [discriminate|].
  split; [reflexivity | discriminate].
Qed.

Lemma allref_stops_at_mismatch_witness :
  Z.of_nat (length (calls (pileup [BASE_A; BASE_C; BASE_ANY]))) < UINT_MODULUS /\
  calls (pileup [BASE_A; BASE_C; BASE_ANY]) !! 1%nat = Some (mk_base_call BASE_C) /\
  obs_id (mk_base_call BASE_C) <> BASE_A /\
  (entries_read BASE_ANY false (pileup [BASE_A; BASE_C; BASE_ANY]) BASE_A <= 2)%nat /\
  is_spi_allref BASE_ANY false (pileup [BASE_A; BASE_C; BASE_ANY]) BASE_A
    <> Returned true.
Proof.
  assert (H0 : Z.of_nat (length (calls (pileup [BASE_A; BASE_C; BASE_ANY])))
               < UINT_MODULUS) by reflexivity.
  assert (H1 : calls (pileup [BASE_A; BASE_C; BASE_ANY]) !! 1%nat
               = Some (mk_base_call BASE_C)) by reflexivity.
  assert (H2 : obs_id (mk_base_call BASE_C) <> BASE_A) by discriminate.
  pose proof (allref_stops_at_mismatch BASE_ANY false
                (pileup [BASE_A; BASE_C; BASE_ANY]) BASE_A 1 _ H0 H1 H2)
    as (Hread & Hnot & _).
  split; [exact H0|]. split; [exact H1|]. split; [exact H2|].
  split; [exact Hread | exact Hnot].
Defined.

(** *** The two builds *)

Section builds.
Variable ANY : Z.

Lemma allref_loop_fst ndebug ref_gt cs : forall i j,
  fst (allref_loop ANY ndebug ref_gt cs i) = fst (allref_loop ANY ndebug ref_gt cs j).
Proof.
  induction cs as [|c cs IH]; intros i j; [done|]. cbn [allref_loop].
  destruct (negb ndebug && _); [done|]. destruct (negb _); [done|]. apply IH.
Qed.

(** The outcome of the loop on entries that have one more in front. *)
Lemma allref_loop_cons ndebug ref_gt c cs :
  fst (allref_loop ANY ndebug ref_gt (c :: cs) 0)
    = if negb ndebug && (obs_id c =? ANY) then AssertionFailed
      else if negb (ref_gt =? obs_id c) then Returned false
      else fst (allref_loop ANY ndebug ref_gt cs 0).
Proof.
  cbn [allref_loop].
  destruct (negb ndebug && _); [done|]. destruct (negb _); [done|].
  apply allref_loop_fst.
Qed.

Lemma release_forallb ref_gt cs :
  fst (allref_loop ANY true ref_gt cs 0) = Returned (forallb (matches ref_gt) cs).
Proof.
  induction cs as [|c cs IH]; [done|].
  rewrite allref_loop_cons. cbn [negb andb forallb]. unfold matches at 1.
  by destruct (ref_gt =? obs_id c).
Qed.

Lemma loop_true_iff ndebug ref_gt cs :
  fst (allref_loop ANY ndebug ref_gt cs 0) = Returned true <->
  Forall (fun c => obs_id c = ref_gt) cs /\
  (ndebug = true \/ ref_gt <> ANY \/ cs = []).
Proof.
  induction cs as [|c cs IH].
  - split; [|done]. intros _. split; [constructor | by right; right].
  - rewrite allref_loop_cons.
    destruct (Z.eqb_spec (obs_id c) ANY) as [Ha|Ha];
      destruct (Z.eqb_spec ref_gt (obs_id c)) as [Hr|Hr];
      destruct ndebug; cbn [negb andb];
      rewrite ?IH, Forall_cons; split; try done; try (intros [[? ?] ?]; congruence).
    + intros [Hall _]. split; [done | by left].
    + intros [[_ Hall] _]. split; [done | by left].
    + intros [_ [|[|]]]; [done | congruence | done].
    + intros [Hall _]. split; [done | by left].
    + intros [[_ Hall] _]. split; [done | by left].
    + intros [Hall _]. split; [done | right; left; congruence].
    + intros [[_ Hall] _]. split; [done|]. right. left. congruence.
Qed.

Lemma loop_fails_iff ref_gt cs :
  fst (allref_loop ANY false ref_gt cs 0) = AssertionFailed <->
  exists pre c post,
    cs = pre ++ c :: post /\ obs_id c = ANY /\
    Forall (fun x => obs_id x = ref_gt /\ obs_id x <> ANY) pre.
Proof.
  induction cs as [|c cs IH].
  - split; [done|]. intros (pre & c & post & E & _). by destruct pre.
  - rewrite allref_loop_cons. cbn [negb andb].
    destruct (Z.eqb_spec (obs_id c) ANY) as [Ha|Ha].
    + split; [|done]. intros _. exists [], c, cs. by repeat split.
    + destruct (Z.eqb_spec ref_gt (obs_id c)) as [Hr|Hr]; cbn [negb].
      * rewrite IH. split.
        -- intros (pre & x & post & -> & Hx & Hpre).
           exists (c :: pre), x, post. split; [done|]. split; [done|].
           constructor; [done | exact Hpre].
        -- intros (pre & x & post & E & Hx & Hpre).
           destruct pre as [|y pre]; simpl in E; simplify_eq; try done.
           apply Forall_cons in Hpre as [_ Hpre]. by exists pre, x, post.
      * split; [done|]. intros (pre & x & post & E & Hx & Hpre).
        destruct pre as [|y pre]; simpl in E; simplify_eq; try done.
        apply Forall_cons in Hpre as [[Hy _] _]. congruence.
Qed.

(** X8. Compiled with NDEBUG the function always returns, sentinel or
    not and whatever the size of the evidence: [true] when every entry it
    visits (the first [size() mod 2^32]) is observed equal to [ref_gt],
    [false] otherwise. With fewer than [2^32] entries these are all the
    entries. *)
Theorem release_build_always_returns (pi : snp_pos_info) (ref_gt : Z) :
  is_spi_allref ANY true pi ref_gt
    = Returned (forallb (matches ref_gt) (visited pi)) /\
  (is_spi_allref ANY true pi ref_gt = Returned true <->
   forall c, c ∈ visited pi -> obs_id c = ref_gt) /\
  (Z.of_nat (length (calls pi)) < UINT_MODULUS ->
   (is_spi_allref ANY true pi ref_gt = Returned true <->
    forall c, c ∈ calls pi -> obs_id c = ref_gt)).
Proof.
  assert (H : is_spi_allref ANY true pi ref_gt = Returned true <->
              forall c, c ∈ visited pi -> obs_id c = ref_gt).
  { unfold is_spi_allref. rewrite release_forallb, <- forallb_matches.
    split; [congruence | by intros ->]. }
  split; [apply release_forallb|]. split; [exact H|].
  intros Hlen. by rewrite <- (visited_all pi Hlen).
Qed.

(** X9. The assertion never changes a result: whenever the build with
    assertions returns a value, the NDEBUG build returns the same value on
    the same arguments. *)
Theorem assertion_keeps_the_value (pi : snp_pos_info) (ref_gt : Z) (b : bool) :
  is_spi_allref ANY false pi ref_gt = Returned b ->
  is_spi_allref ANY true pi ref_gt = Returned b.
Proof.
  unfold is_spi_allref. generalize (visited pi). clear pi.
  intros cs. induction cs as [|c cs IH]; [done|].
  rewrite !allref_loop_cons. cbn [negb andb].
  destruct (obs_id c =? ANY); [done|].
  destruct (negb (ref_gt =? obs_id c)); [done | exact IH].
Qed.

(** X10. The function returns [true] exactly when every entry it visits
    (the first [size() mod 2^32]) is observed equal to [ref_gt] and, in a
    build with assertions, [ref_gt] is not the sentinel or no entry is
    visited. With fewer than [2^32] entries these are all the entries. *)
Theorem returns_true_iff (ndebug : bool) (pi : snp_pos_info) (ref_gt : Z) :
  (is_spi_allref ANY ndebug pi ref_gt = Returned true <->
   Forall (fun c => obs_id c = ref_gt) (visited pi) /\
   (ndebug = true \/ ref_gt <> ANY \/ visited pi = [])) /\
  (Z.of_nat (length (calls pi)) < UINT_MODULUS ->
   (is_spi_allref ANY ndebug pi ref_gt = Returned true <->
    Forall (fun c => obs_id c = ref_gt) (calls pi) /\
    (ndebug = true \/ ref_gt <> ANY \/ calls pi = []))).
Proof.
  assert (H : is_spi_allref ANY ndebug pi ref_gt = Returned true <->
              Forall (fun c => obs_id c = ref_gt) (visited pi) /\
              (ndebug = true \/ ref_gt <> ANY \/ visited pi = []))
    by apply loop_true_iff.
  split; [exact H|]. intros Hlen. by rewrite <- (visited_all pi Hlen).
Qed.

(** X11. In a build with assertions the call ends in the failed
    assertion exactly when some entry it visits (one of the first
    [size() mod 2^32]) is observed as the sentinel and every entry before
    that one is observed equal to [ref_gt] and not as the sentinel. With
    fewer than [2^32] entries these are all the entries. *)
Theorem assertion_fails_iff (pi : snp_pos_info) (ref_gt : Z) :
  (is_spi_allref ANY false pi ref_gt = AssertionFailed <->
   exists pre c post,
     visited pi = pre ++ c :: post /\ obs_id c = ANY /\
     Forall (fun x => obs_id x = ref_gt /\ obs_id x <> ANY) pre) /\
  (Z.of_nat (length (calls pi)) < UINT_MODULUS ->
   (is_spi_allref ANY false pi ref_gt = AssertionFailed <->
    exists pre c post,
      calls pi = pre ++ c :: post /\ obs_id c = ANY /\
      Forall (fun x => obs_id x = ref_gt /\ obs_id x <> ANY) pre)).
Proof.
  assert (H : is_spi_allref ANY false pi ref_gt = AssertionFailed <->
              exists pre c post,
                visited pi = pre ++ c :: post /\ obs_id c = ANY /\
                Forall (fun x => obs_id x = ref_gt /\ obs_id x <> ANY) pre)
    by apply loop_fails_iff.
  split; [exact H|]. intros Hlen. by rewrite <- (visited_all pi Hlen).
Qed.

(** The loop sees an entry through [obs_id] only. *)
Lemma allref_loop_same_obs ndebug ref_gt cs cs' : forall k,
  Forall2 (fun c c' => obs_id c = obs_id c') cs cs' ->
  allref_loop ANY ndebug ref_gt cs k = allref_loop ANY ndebug ref_gt cs' k.
Proof.
  intros k H. revert k. induction H as [|c c' cs cs' Hc _ IH]; intros k; [done|].
  cbn [allref_loop]. rewrite Hc.
  destruct (negb ndebug && _); [done|]. destruct (negb _); [done|]. apply IH.
Qed.

(** X26. Every identifier is read into a [uint8_t]: evidence whose
    identifiers agree, entry by entry, modulo 256 gives the same outcome
    and has the same number of entries read, in either build. *)
Theorem identifiers_read_as_uint8
    (ndebug : bool) (pi pi' : snp_pos_info) (ref_gt : Z) :
  Forall2 (fun c c' => base_id c mod 256 = base_id c' mod 256) (calls pi) (calls pi') ->
  is_spi_allref ANY ndebug pi ref_gt = is_spi_allref ANY ndebug pi' ref_gt /\
  entries_read ANY ndebug pi ref_gt = entries_read ANY ndebug pi' ref_gt.
Proof.
  intros H. unfold is_spi_allref, entries_read.
  assert (E : allref_loop ANY ndebug ref_gt (visited pi) 0
              = allref_loop ANY ndebug ref_gt (visited pi') 0).
  { apply allref_loop_same_obs. unfold visited, n_calls.
    rewrite <- (Forall2_length _ _ _ H). by apply Forall2_take. }
  by rewrite E.
Qed.

(** X27. The size is read into an [unsigned]: [2^32] further entries
    behind evidence of fewer than [2^32] entries are never visited, so the
    outcome and the number of entries read are those of the evidence
    without them, whatever the further entries are. *)
Theorem size_read_as_unsigned
    (ndebug : bool) (pi : snp_pos_info) (more : list base_call) (ref_gt : Z) :
  Z.of_nat (length (calls pi)) < 4294967296 ->
  Z.of_nat (length more) = 4294967296 ->
  is_spi_allref ANY ndebug (mk_snp_pos_info (calls pi ++ more)) ref_gt
    = is_spi_allref ANY ndebug pi ref_gt /\
  entries_read ANY ndebug (mk_snp_pos_info (calls pi ++ more)) ref_gt
    = entries_read ANY ndebug pi ref_gt.
Proof.
  intros Hlen Hmore. unfold is_spi_allref, entries_read.
  assert (E : visited (mk_snp_pos_info (calls pi ++ more)) = visited pi).
  { rewrite (visited_all pi) by exact Hlen.
    unfold visited, n_calls, wrap_unsigned. cbn [calls].
    rewrite length_app, Nat2Z.inj_add, Hmore.
    change 4294967296 with (1 * UINT_MODULUS).
    rewrite Z_mod_plus_full, Z.mod_small by (split; [lia | exact Hlen]).
    rewrite Nat2Z.id. apply take_app_length. }
  by rewrite E.
Qed.

End builds.

Lemma release_build_always_returns_witness :
  Z.of_nat (length (calls (pileup [BASE_A; BASE_ANY; BASE_A]))) < UINT_MODULUS /\
  (is_spi_allref BASE_ANY true (pileup [BASE_A; BASE_ANY; BASE_A]) BASE_A
     = Returned true <->
   forall c, c ∈ calls (pileup [BASE_A; BASE_ANY; BASE_A]) -> obs_id c = BASE_A).
Proof.
  assert (H : Z.of_nat (length (calls (pileup [BASE_A; BASE_ANY; BASE_A])))
              < UINT_MODULUS) by reflexivity.
  split; [exact H|].
  exact (proj2 (proj2 (release_build_always_returns BASE_ANY
                         (pileup [BASE_A; BASE_ANY; BASE_A]) BASE_A)) H).
Defined.

Lemma assertion_keeps_the_value_witness :
  is_spi_allref BASE_ANY false (pileup [BASE_A; BASE_C; BASE_ANY]) BASE_A = Returned false /\
  is_spi_allref BASE_ANY true (pileup [BASE_A; BASE_C; BASE_ANY]) BASE_A = Returned false.
Proof.
  assert (H : is_spi_allref BASE_ANY false (pileup [BASE_A; BASE_C; BASE_ANY]) BASE_A
              = Returned false) by reflexivity.
  split; [exact H|]. exact (assertion_keeps_the_value BASE_ANY _ _ _ H).
Defined.

Lemma returns_true_iff_witness :
  Z.of_nat (length (calls (pileup [BASE_A; BASE_A]))) < UINT_MODULUS /\
  (is_spi_allref BASE_ANY false (pileup [BASE_A; BASE_A]) BASE_A = Returned true <->
   Forall (fun c => obs_id c = BASE_A) (calls (pileup [BASE_A; BASE_A])) /\
   (false = true \/ BASE_A <> BASE_ANY \/ calls (pileup [BASE_A; BASE_A]) = [])).
Proof.
  assert (H : Z.of_nat (length (calls (pileup [BASE_A; BASE_A]))) < UINT_MODULUS)
    by reflexivity.
  split; [exact H|].
  exact (proj2 (returns_true_iff BASE_ANY false (pileup [BASE_A; BASE_A]) BASE_A) H).
Defined.

Lemma assertion_fails_iff_witness :
  Z.of_nat (length (calls (pileup [BASE_A; BASE_ANY; BASE_C]))) < UINT_MODULUS /\
  (is_spi_allref BASE_ANY false (pileup [BASE_A; BASE_ANY; BASE_C]) BASE_A
     = AssertionFailed <->
   exists pre c post,
     calls (pileup [BASE_A; BASE_ANY; BASE_C]) = pre ++ c :: post /\
     obs_id c = BASE_ANY /\
     Forall (fun x => obs_id x = BASE_A /\ obs_id x <> BASE_ANY) pre).
Proof.
  assert (H : Z.of_nat (length (calls (pileup [BASE_A; BASE_ANY; BASE_C])))
              < UINT_MODULUS) by reflexivity.
  split; [exact H|].
  exact (proj2 (assertion_fails_iff BASE_ANY (pileup [BASE_A; BASE_ANY; BASE_C]) BASE_A) H).
Defined.

Lemma identifiers_read_as_uint8_witness :
  Forall2 (fun c c' => base_id c mod 256 = base_id c' mod 256)
          (calls (pileup [256; 513])) (calls (pileup [BASE_A; BASE_C])) /\
  is_spi_allref BASE_ANY false (pileup [256; 513]) BASE_A = Returned false.
Proof.
  assert (H : Forall2 (fun c c' => base_id c mod 256 = base_id c' mod 256)
                      (calls (pileup [256; 513])) (calls (pileup [BASE_A; BASE_C])))
    by (repeat constructor).
  split; [exact H|].
  exact (eq_trans (proj1 (identifiers_read_as_uint8 BASE_ANY false _ _ BASE_A H))
                  eq_refl).
Defined.

Lemma size_read_as_unsigned_witness :
  Z.of_nat (length (calls (pileup [BASE_A; BASE_C]))) < 4294967296 /\
  Z.of_nat (length (calls (flood BASE_A))) = 4294967296 /\
  is_spi_allref BASE_ANY false
    (mk_snp_pos_info (calls (pileup [BASE_A; BASE_C]) ++ calls (flood BASE_A))) BASE_A
    = Returned false.
Proof.
  assert (H1 : Z.of_nat (length (calls (pileup [BASE_A; BASE_C]))) < 4294967296)
    by reflexivity.
  split; [exact H1|]. split; [exact (flood_size BASE_A)|].
  exact (eq_trans (proj1 (size_read_as_unsigned BASE_ANY false
                            (pileup [BASE_A; BASE_C]) (calls (flood BASE_A)) BASE_A
                            H1 (flood_size BASE_A)))
                  eq_refl).
Defined.

End SnpUtilFacts.

(** ** The filter encoder *)

Module GvcfLocusInfoFacts.
Import GvcfLocusInfo.

Abbreviation chars := list_ascii_of_string.

Lemma str_app_cons c (a b : string) : String.app (String c a) b = String c (String.app a b).
Proof. reflexivity. Qed.

Lemma str_app_nil_r (a : string) : String.app a "" = a.
Proof. induction a as [|c a IH]; [done|]. by rewrite str_app_cons, IH. Qed.

Lemma str_app_assoc (a b c : string) :
  String.app (String.app a b) c = String.app a (String.app b c).
Proof. induction a as [|x a IH]; [done|]. by rewrite !str_app_cons, IH. Qed.

Lemma chars_app (a b : string) : chars (String.app a b) = chars a ++ chars b.
Proof. induction a as [|x a IH]; [done|]. rewrite str_app_cons. simpl. by rewrite IH. Qed.

Lemma chars_nil (a : string) : chars a = [] -> a = "".
Proof. by destruct a. Qed.

Lemma put_put (os : ostream) (a b : string) : os << a << b = os << String.app a b.
Proof. unfold put. apply str_app_assoc. Qed.

Lemma put_empty (os : ostream) : os << "" = os.
Proof. unfold put. apply str_app_nil_r. Qed.

Lemma concat_cons_cons sep (a b : string) l :
  String.concat sep (a :: b :: l) =
    String.app a (String.app sep (String.concat sep (b :: l))).
Proof. reflexivity. Qed.

Section encoder.
Variable SIZE : nat.
Variable get_label : nat -> string.

Abbreviation joined ks := (String.concat ";" (get_label <$> ks)).

(** What the loop emits over the indices [idxs]: the labels of the set
    kinds among them, each but the first after a [;], and one more [;]
    in front when a label was emitted before the loop got there. *)
Lemma write_filters_loop_emits f idxs : forall is_sep os,
  write_filters_loop get_label f idxs is_sep os =
    match List.filter (bs_test f) idxs with
    | [] => os
    | ks => os << (if is_sep then ";" else "") << joined ks
    end.
Proof.
  induction idxs as [|i idxs IH]; intros is_sep os; [done|].
  cbn [write_filters_loop List.filter]. destruct (bs_test f i); [|apply IH].
  rewrite IH. destruct (List.filter (bs_test f) idxs) as [|k ks].
  - change (joined [i]) with (get_label i).
    by destruct is_sep; rewrite ?put_empty.
  - rewrite !fmap_cons, concat_cons_cons.
    destruct is_sep; rewrite ?put_empty, !put_put; f_equal;
      by rewrite ?str_app_assoc.
Qed.

Lemma write_filters_emits sm os :
  bs_none (filters sm) = false ->
  write_filters SIZE get_label sm os = os << joined (set_kinds SIZE (filters sm)).
Proof.
  intros Hn. unfold write_filters, set_kinds. rewrite Hn, write_filters_loop_emits.
  destruct (List.filter _ _); [by rewrite put_empty | by rewrite put_empty].
Qed.

(** *** The kinds visited *)

Lemma set_kinds_elem f i :
  i ∈ set_kinds SIZE f <-> (i < SIZE)%nat /\ bs_test f i = true.
Proof.
  unfold set_kinds. rewrite list_elem_of_In, filter_In, in_seq. intuition lia.
Qed.

Lemma filter_seq_sorted (p : nat -> bool) n : forall a,
  StronglySorted lt (List.filter p (seq a n)).
Proof.
  induction n as [|n IH]; intros a; simpl; [constructor|].
  destruct (p a); [|apply IH].
  constructor; [apply IH|].
  apply Forall_forall. intros x Hx.
  apply list_elem_of_In, filter_In in Hx as [Hx _]. apply in_seq in Hx. lia.
Qed.

Lemma set_kinds_sorted f : StronglySorted lt (set_kinds SIZE f).
Proof. apply filter_seq_sorted. Qed.

(** A bit-set of [SIZE] bits that is not empty has a bit set below
    [SIZE]. *)
Lemma set_kinds_nonempty f :
  bs_wf SIZE f -> bs_none f = false -> set_kinds SIZE f <> [].
Proof.
  unfold bs_wf, bs_none. intros Hwf Hn%N.eqb_neq Hnil.
  assert (Hin : N.to_nat (N.log2 f) ∈ set_kinds SIZE f).
  { apply set_kinds_elem. split.
    - assert (N.log2 f < N.of_nat SIZE)%N by (apply N.log2_lt_pow2; lia). lia.
    - unfold bs_test. rewrite N2Nat.id. by apply N.bit_log2. }
  rewrite Hnil in Hin. by apply elem_of_nil in Hin.
Qed.

(** *** Setting bits *)

Lemma bs_test_set_bit b i j :
  bs_test (N.lor b (N.shiftl 1 (N.of_nat i))) j = bs_test b j || bool_decide (i = j).
Proof.
  unfold bs_test. rewrite N.lor_spec, N.shiftl_1_l, N.pow2_bits_eqb. f_equal.
  destruct (decide (i = j)) as [->|Hne].
  - rewrite N.eqb_refl. by rewrite bool_decide_eq_true_2.
  - rewrite bool_decide_eq_false_2 by done. apply N.eqb_neq. lia.
Qed.

Lemma bs_set_all_Some idxs : forall b f,
  bs_set_all SIZE idxs b = Some f ->
  Forall (fun i => (i < SIZE)%nat) idxs /\
  forall j, bs_test f j = bs_test b j || bool_decide (j ∈ idxs).
Proof.
  induction idxs as [|i idxs IH]; intros b f; cbn [bs_set_all].
  - intros [= <-]. split; [constructor|]. intros j.
    rewrite (bool_decide_eq_false_2 (j ∈ [])) by apply not_elem_of_nil.
    by rewrite orb_false_r.
  - unfold bs_set. destruct (i <? SIZE)%nat eqn:Hi; [|done].
    intros Hf. apply IH in Hf as [Hall Hbits]. apply Nat.ltb_lt in Hi.
    split; [by constructor|]. intros j.
    rewrite Hbits, bs_test_set_bit, <- orb_assoc. f_equal.
    destruct (decide (i = j)) as [->|Hne].
    + rewrite (bool_decide_eq_true_2 (j = j)) by done.
      rewrite (bool_decide_eq_true_2 (j ∈ j :: idxs)) by (apply elem_of_cons; by left).
      done.
    + rewrite (bool_decide_eq_false_2 (i = j)) by done.
      rewrite orb_false_l.
    apply bool_decide_ext. rewrite elem_of_cons.
    split; [by right | by intros [->|?]].
Qed.

Lemma bs_set_all_total idxs : forall b,
  Forall (fun i => (i < SIZE)%nat) idxs -> is_Some (bs_set_all SIZE idxs b).
Proof.
  induction idxs as [|i idxs IH]; intros b Hall; simpl; [by eexists|].
  apply Forall_cons in Hall as [Hi Hall]. unfold bs_set.
  apply Nat.ltb_lt in Hi. rewrite Hi. by apply IH.
Qed.

Lemma bs_test_ext (f g : bitset) : (forall j, bs_test f j = bs_test g j) -> f = g.
Proof.
  intros H. apply N.bits_inj. intros n.
  specialize (H (N.to_nat n)). unfold bs_test in H. by rewrite N2Nat.id in H.
Qed.

(** The bit-set does not depend on the order in which its bits were
    set. *)
Lemma bs_set_all_perm idxs idxs' b f :
  idxs ≡ₚ idxs' ->
  bs_set_all SIZE idxs b = Some f -> bs_set_all SIZE idxs' b = Some f.
Proof.
  intros Hp Hf. destruct (bs_set_all_Some _ _ _ Hf) as [Hall Hbits].
  destruct (bs_set_all_total idxs' b) as [f' Hf'].
  { by rewrite <- Hp. }
  rewrite Hf'. f_equal. apply bs_test_ext. intros j.
  destruct (bs_set_all_Some _ _ _ Hf') as [_ Hbits'].
  rewrite Hbits, Hbits'. f_equal. apply bool_decide_ext. by rewrite Hp.
Qed.

Lemma bs_set_all_kinds idxs f i :
  bs_set_all SIZE idxs bs_empty = Some f ->
  i ∈ set_kinds SIZE f <-> i ∈ idxs.
Proof.
  intros Hf. destruct (bs_set_all_Some _ _ _ Hf) as [Hall Hbits].
rewrite set_kinds_elem, Hbits. unfold bs_empty, bs_test. rewrite N.bits_0. simpl.
rewrite bool_decide_eq_true. rewrite Forall_forall in Hall.
split; [by intros [_ ?] | by split; [apply Hall|]].
Qed.

(** *** The text emitted *)

Lemma joined_chars k ks :
  chars (joined (k :: ks)) =
    chars (get_label k) ++
    match ks with
    | [] => []
    | _ => ";"%char :: chars (joined ks)
    end.
Proof.
  destruct ks as [|k' ks].
  - by rewrite app_nil_r.
  - rewrite !fmap_cons, concat_cons_cons, chars_app. f_equal.
Qed.

Lemma plain_no_semicolon l :
  plain_label l -> List.filter is_semicolon (chars l) = [].
Proof.
  intros [_ Hall]. induction Hall as [|c cs [Hc _] _ IH]; [done|].
  simpl. by rewrite Hc.
Qed.

Lemma joined_semicolons ks :
  Forall (fun k => plain_label (get_label k)) ks ->
  count_semicolons (joined ks) = (length ks - 1)%nat.
Proof.
  unfold count_semicolons.
  induction 1 as [|k ks Hk Hks IH]; [done|].
  rewrite joined_chars, List.filter_app, plain_no_semicolon by done.
  destruct ks as [|k' ks']; [done|].
  cbn [List.filter]. change (is_semicolon ";") with true.
  cbn [app length]. rewrite IH. simpl. lia.
Qed.

Lemma joined_first_char k ks :
  plain_label (get_label k) ->
  exists c, first_char (joined (k :: ks)) = Some c /\ token_char c.
Proof.
  intros [Hne Hall]. unfold first_char. rewrite joined_chars.
  destruct (chars (get_label k)) as [|c cs] eqn:E.
  - by apply chars_nil in E.
  - exists c. split; [done|]. by apply Forall_cons in Hall as [Hc _].
Qed.

Lemma plain_last_char l :
  plain_label l -> exists c, last (chars l) = Some c /\ token_char c.
Proof.
  intros [Hne Hall].
  destruct (last (chars l)) as [c|] eqn:E.
  - exists c. split; [done|].
    rewrite Forall_forall in Hall. by apply Hall, last_Some_elem_of.
  - apply last_None, chars_nil in E. done.
Qed.

Lemma joined_last_char ks :
  ks <> [] ->
  Forall (fun k => plain_label (get_label k)) ks ->
  exists c, last_char (joined ks) = Some c /\ token_char c.
Proof.
  unfold last_char. intros Hne Hall.
  induction Hall as [|k ks Hk Hks IH]; [done|].
  rewrite joined_chars. destruct ks as [|k' ks'].
  - rewrite app_nil_r. by apply plain_last_char.
  - destruct IH as (c & Hc & Htok); [done|].
    exists c. split; [|done].
    rewrite last_app, last_cons, Hc. done.
Qed.

Lemma no_semicolon_in_PASS : List.filter is_semicolon (chars "PASS") = [].
Proof. reflexivity. Qed.

(** Two labels or more never read [PASS]: there is a [;] between. *)
Lemma joined_two_not_PASS k k' ks : joined (k :: k' :: ks) <> "PASS".
Proof.
  intros E. pose proof no_semicolon_in_PASS as H. rewrite <- E in H.
  rewrite joined_chars, List.filter_app in H.
  apply app_eq_nil in H as [_ H]. cbn [List.filter] in H.
  change (is_semicolon ";") with true in H. done.
Qed.

(** C1. For a bit-set of [SIZE] bits that is not empty, [write_filters]
    appends to the stream the labels of the kinds whose bit is set (at
    least one), in ascending index order, with one [;] between
    neighbours: a single set bit gives its label alone; when the labels
    are plain tokens the text has one [;] less than it has labels and
    begins and ends with a label character, so neither with a [;] nor
    with a blank. The bit-set, and with it the text, is the same in
    whatever order its bits were set. *)
Theorem write_filters_joins_set_labels (f : bitset) (os : ostream) :
  bs_wf SIZE f ->
  bs_none f = false ->
  write_filters SIZE get_label (mk_shared_modifiers f) os
    = os << joined (set_kinds SIZE f) /\
  set_kinds SIZE f <> [] /\
  (forall i, i ∈ set_kinds SIZE f <-> (i < SIZE)%nat /\ bs_test f i = true) /\
  StronglySorted lt (set_kinds SIZE f) /\
  (forall i, set_kinds SIZE f = [i] ->
     write_filters SIZE get_label (mk_shared_modifiers f) os = os << get_label i) /\
  ((forall i, (i < SIZE)%nat -> plain_label (get_label i)) ->
     count_semicolons (joined (set_kinds SIZE f))
       = (length (set_kinds SIZE f) - 1)%nat /\
     (exists c, first_char (joined (set_kinds SIZE f)) = Some c /\ token_char c) /\
     (exists c, last_char (joined (set_kinds SIZE f)) = Some c /\ token_char c)) /\
  (forall idxs idxs',
     bs_set_all SIZE idxs bs_empty = Some f ->
     idxs ≡ₚ idxs' ->
     bs_set_all SIZE idxs' bs_empty = Some f /\
     (forall i, i ∈ set_kinds SIZE f <-> i ∈ idxs)).
Proof.
  intros Hwf Hn.
  assert (Hw : write_filters SIZE get_label (mk_shared_modifiers f) os
               = os << joined (set_kinds SIZE f))
    by by apply write_filters_emits.
  pose proof (set_kinds_nonempty f Hwf Hn) as Hne.
  split; [exact Hw|]. split; [exact Hne|].
  split; [apply set_kinds_elem|]. split; [apply set_kinds_sorted|].
  split; [|split].
  - intros i Hi. rewrite Hw, Hi. done.
  - intros Hplain.
    assert (Hall : Forall (fun k => plain_label (get_label k)) (set_kinds SIZE f)).
    { apply Forall_forall. intros k Hk. apply Hplain. by apply set_kinds_elem in Hk as [? _]. }
    split; [by apply joined_semicolons|]. split; [|by apply joined_last_char].
    destruct (set_kinds SIZE f) as [|k ks]; [done|].
    apply joined_first_char. by apply Forall_cons in Hall as [? _].
  - intros idxs idxs' Hf Hp. split; [by apply (bs_set_all_perm idxs)|].
    intros i. by apply bs_set_all_kinds.
Qed.

(** C2. Provided no filter kind is itself labelled [PASS],
    [write_filters] appends exactly [PASS] if and only if the filter set
    has no bit set; in particular it does so for a site record with all
    five flags false and no filter bit. *)
Theorem write_filters_PASS_iff_none (sm : shared_modifiers) (os : ostream) :
  (forall i, (i < SIZE)%nat -> get_label i <> "PASS") ->
  (write_filters SIZE get_label sm os = os << "PASS"
     <-> bs_none (filters sm) = true) /\
  (forall site,
     is_unknown site = false -> is_covered site = false ->
     is_used_covered site = false -> is_zero_ploidy site = false ->
     is_block site = false -> filters (shared site) = bs_empty ->
     write_filters SIZE get_label (shared site) os = os << "PASS").
Proof.
  intros Hlab. split.
  - split.
    + destruct (bs_none (filters sm)) eqn:Hn; [done|].
      rewrite write_filters_emits by done. unfold put.
      intros E%(inj (String.app os)). exfalso.
      destruct (set_kinds SIZE (filters sm)) as [|k [|k' ks]] eqn:Hk.
      * done.
      * apply (Hlab k); [|exact E].
        assert (Hin : k ∈ set_kinds SIZE (filters sm)) by (rewrite Hk; apply elem_of_cons; by left).
        by apply set_kinds_elem in Hin as [? _].
      * by apply joined_two_not_PASS in E.
    + intros Hn. unfold write_filters. by rewrite Hn.
  - intros site _ _ _ _ _ Hf. unfold write_filters. by rewrite Hf.
Qed.

End encoder.

Lemma example_label_plain i : plain_label (example_label i).
Proof.
  destruct i as [|[|i]]; (split; [done|]); repeat constructor.
Defined.

Lemma write_filters_joins_set_labels_witness :
  bs_wf 3 5%N /\ bs_none 5%N = false /\
  write_filters 3 example_label (mk_shared_modifiers 5%N) "" = "F1;F3" /\
  set_kinds 3 5%N = [0; 2]%nat /\
  bs_set_all 3 [2; 0]%nat bs_empty = Some 5%N /\
  bs_set_all 3 [0; 2]%nat bs_empty = Some 5%N /\
  count_semicolons "F1;F3" = 1%nat.
Proof.
  assert (Hwf : bs_wf 3 5%N) by reflexivity.
  assert (Hn : bs_none 5%N = false) by reflexivity.
  assert (Hset : bs_set_all 3 [2; 0]%nat bs_empty = Some 5%N) by reflexivity.
  assert (Hperm : [2; 0]%nat ≡ₚ [0; 2]%nat) by apply Permutation_swap.
  pose proof (write_filters_joins_set_labels 3 example_label 5%N "" Hwf Hn)
    as (Hw & _ & _ & _ & _ & Htext & Horder).
  split; [exact Hwf|]. split; [exact Hn|]. split; [exact Hw|].
  split; [reflexivity|]. split; [exact Hset|].
  split; [exact (proj1 (Horder _ _ Hset Hperm))|].
  exact (proj1 (Htext (fun i _ => example_label_plain i))).
Defined.

Lemma write_filters_PASS_iff_none_witness :
  (forall i, (i < 3)%nat -> example_label i <> "PASS") /\
  (write_filters 3 example_label (mk_shared_modifiers bs_empty) "" = "PASS"
     <-> bs_none bs_empty = true) /\
  write_filters 3 example_label
    (shared (mk_site_modifiers (mk_shared_modifiers bs_empty)
                               false false false false false)) "" = "PASS".
Proof.
  assert (Hlab : forall i, (i < 3)%nat -> example_label i <> "PASS").
  { intros [|[|i]] _; discriminate. }
  pose proof (write_filters_PASS_iff_none 3 example_label
                (mk_shared_modifiers bs_empty) "" Hlab) as [Hiff Hsite].
  split; [exact Hlab|]. split; [exact Hiff|].
  exact (Hsite (mk_site_modifiers (mk_shared_modifiers bs_empty)
                                  false false false false false)
               eq_refl eq_refl eq_refl eq_refl eq_refl eq_refl).
Defined.

(** *** Reading the text back *)

Lemma chars_inj (a b : string) : chars a = chars b -> a = b.
Proof.
  intros E. rewrite <- (string_of_list_ascii_of_string a),
    <- (string_of_list_ascii_of_string b). by rewrite E.
Qed.

(** Two texts without [;], each followed by nothing or by a [;], are a
    prefix of the same text only when they are equal. *)
Lemma split_at_semicolon (a b ta tb : list ascii) :
  List.filter is_semicolon a = [] ->
  List.filter is_semicolon b = [] ->
  (ta = [] \/ exists t, ta = ";"%char :: t) ->
  (tb = [] \/ exists t, tb = ";"%char :: t) ->
  a ++ ta = b ++ tb -> a = b /\ ta = tb.
Proof.
  revert b. induction a as [|x a IH]; intros b Ha Hb Hta Htb E.
  - destruct b as [|y b]; [done|]. exfalso. simpl in E.
    destruct Hta as [->|[t ->]]; [done|]. by simplify_eq.
  - destruct b as [|y b].
    + exfalso. simpl in E. destruct Htb as [->|[t ->]]; [done|]. by simplify_eq.
    + simpl in E. simplify_eq. simpl in Ha, Hb.
      destruct (is_semicolon y); [done|].
      destruct (IH b Ha Hb Hta Htb) as [-> ->]; done.
Qed.

Section decoding.
Variable SIZE : nat.
Variable get_label : nat -> string.

Abbreviation joined' ks := (String.concat ";" (get_label <$> ks)).

Lemma joined_tail_shape ks :
  match ks with
  | [] => @nil ascii
  | _ => ";"%char :: chars (joined' ks)
  end = [] \/
  exists t, match ks with
            | [] => @nil ascii
            | _ => ";"%char :: chars (joined' ks)
            end = ";"%char :: t.
Proof. destruct ks; [by left | right; by eexists]. Qed.

(** Lists of kinds with plain, pairwise different labels are read back
    from their joined labels. *)
Lemma joined_inj ks : forall ks',
  Forall (fun k => plain_label (get_label k)) ks ->
  Forall (fun k => plain_label (get_label k)) ks' ->
  (forall i j, i ∈ ks -> j ∈ ks' -> get_label i = get_label j -> i = j) ->
  joined' ks = joined' ks' -> ks = ks'.
Proof.
  induction ks as [|k ks IH]; intros ks' Hp Hp' Hinj E.
  - destruct ks' as [|k' ks']; [done|]. exfalso.
    apply Forall_cons in Hp' as [[Hne _] _].
    apply (f_equal chars) in E. rewrite (joined_chars get_label) in E.
    simpl in E. symmetry in E. apply app_eq_nil in E as [E _].
    by apply chars_nil in E.
  - destruct ks' as [|k' ks'].
    + exfalso. apply Forall_cons in Hp as [[Hne _] _].
      apply (f_equal chars) in E. rewrite (joined_chars get_label) in E.
      simpl in E. apply app_eq_nil in E as [E _]. by apply chars_nil in E.
    + apply Forall_cons in Hp as [Hk Hp]. apply Forall_cons in Hp' as [Hk' Hp'].
      apply (f_equal chars) in E. rewrite !(joined_chars get_label) in E.
      apply split_at_semicolon in E as [Elab Etail];
        [| by apply plain_no_semicolon | by apply plain_no_semicolon
         | apply joined_tail_shape | apply joined_tail_shape].
      apply chars_inj in Elab.
      assert (k = k') as <-.
      { apply Hinj; [apply elem_of_cons; by left | apply elem_of_cons; by left | done]. }
      f_equal. apply IH; [done | done | |].
      * intros i j Hi Hj. apply Hinj; apply elem_of_cons; by right.
      * destruct ks as [|k1 ks], ks' as [|k1' ks']; try done.
        apply chars_inj. by simplify_eq.
Qed.

Lemma bs_test_above f i : bs_wf SIZE f -> (SIZE <= i)%nat -> bs_test f i = false.
Proof.
  unfold bs_wf, bs_test. intros Hwf Hi.
  rewrite <- (N.mod_small f (2 ^ N.of_nat SIZE)) by done.
  apply N.mod_pow2_bits_high. lia.
Qed.

Lemma set_kinds_inj f g :
  bs_wf SIZE f -> bs_wf SIZE g -> set_kinds SIZE f = set_kinds SIZE g -> f = g.
Proof.
  intros Hf Hg E. apply bs_test_ext. intros j.
  destruct (decide (j < SIZE)%nat) as [Hj|Hj].
  - pose proof (set_kinds_elem SIZE get_label f j) as Ef.
    pose proof (set_kinds_elem SIZE get_label g j) as Eg. rewrite E in Ef.
    destruct (bs_test f j), (bs_test g j); try done.
    + by destruct (proj1 Eg (proj2 Ef (conj Hj eq_refl))).
    + by destruct (proj1 Ef (proj2 Eg (conj Hj eq_refl))).
  - rewrite !bs_test_above by (done || lia). done.
Qed.

(** A set that is not empty is not rendered as [PASS] when no label
    reads [PASS]. *)
Lemma joined_not_PASS ks :
  ks <> [] ->
  (forall i, i ∈ ks -> get_label i <> "PASS") ->
  joined' ks <> "PASS".
Proof.
  intros Hne Hlab. destruct ks as [|k [|k' ks]]; [done| |].
  - apply Hlab, elem_of_cons. by left.
  - apply joined_two_not_PASS.
Qed.

(** X12. When the labels are plain tokens, pairwise different and none
    of them [PASS], the text [write_filters] emits tells the filter set:
    two bit-sets of [SIZE] bits with the same text are equal. *)
Theorem write_filters_tells_the_set (f g : bitset) (os : ostream) :
  (forall i, (i < SIZE)%nat -> plain_label (get_label i)) ->
  (forall i j, (i < SIZE)%nat -> (j < SIZE)%nat ->
     get_label i = get_label j -> i = j) ->
  (forall i, (i < SIZE)%nat -> get_label i <> "PASS") ->
  bs_wf SIZE f -> bs_wf SIZE g ->
  write_filters SIZE get_label (mk_shared_modifiers f) os
    = write_filters SIZE get_label (mk_shared_modifiers g) os ->
  f = g.
Proof.
  intros Hplain Hinj Hpass Hf Hg.
  assert (Hlt : forall h i, i ∈ set_kinds SIZE h -> (i < SIZE)%nat)
    by (intros h i Hi; by apply (set_kinds_elem SIZE get_label) in Hi as [? _]).
  assert (Hnp : forall h, bs_wf SIZE h -> bs_none h = false ->
            joined' (set_kinds SIZE h) <> "PASS").
  { intros h Hh Hn. apply joined_not_PASS; [by apply (set_kinds_nonempty SIZE get_label)|].
    intros i Hi. eapply Hpass, Hlt, Hi. }
  destruct (bs_none f) eqn:Hnf, (bs_none g) eqn:Hng.
  - intros _. apply N.eqb_eq in Hnf, Hng. congruence.
  - rewrite (write_filters_emits _ _ (mk_shared_modifiers g)) by done.
    unfold write_filters. cbn [filters]. rewrite Hnf. unfold put.
    intros E%(inj (String.app os)). by destruct (Hnp g Hg Hng).
  - rewrite (write_filters_emits _ _ (mk_shared_modifiers f)) by done.
    unfold write_filters. cbn [filters]. rewrite Hng. unfold put.
    intros E%(inj (String.app os)). by destruct (Hnp f Hf Hnf).
  - rewrite !write_filters_emits by done. cbn [filters]. unfold put.
    intros E%(inj (String.app os)). apply set_kinds_inj; [done | done |].
    apply joined_inj; [| | | done].
    + apply Forall_forall. intros k Hk. eapply Hplain, Hlt, Hk.
    + apply Forall_forall. intros k Hk. eapply Hplain, Hlt, Hk.
    + intros i j Hi Hj. apply Hinj; eapply Hlt; eassumption.
Qed.

End decoding.

Lemma write_filters_tells_the_set_witness :
  (forall i, (i < 3)%nat -> plain_label (example_label i)) /\
  (forall i j, (i < 3)%nat -> (j < 3)%nat ->
     example_label i = example_label j -> i = j) /\
  (forall i, (i < 3)%nat -> example_label i <> "PASS") /\
  bs_wf 3 5%N /\
  (write_filters 3 example_label (mk_shared_modifiers 5%N) ""
     = write_filters 3 example_label (mk_shared_modifiers (N.lor 1 4)) "") /\
  5%N = N.lor 1 4.
Proof.
  assert (H1 : forall i, (i < 3)%nat -> plain_label (example_label i))
    by (intros i _; apply example_label_plain).
  assert (H2 : forall i j, (i < 3)%nat -> (j < 3)%nat ->
            example_label i = example_label j -> i = j).
  { intros [|[|[|i]]] [|[|[|j]]] Hi Hj; try lia; by intros [=]. }
  assert (H3 : forall i, (i < 3)%nat -> example_label i <> "PASS").
  { intros [|[|i]] _; discriminate. }
  assert (Hwf : bs_wf 3 5%N) by reflexivity.
  assert (E : write_filters 3 example_label (mk_shared_modifiers 5%N) ""
              = write_filters 3 example_label (mk_shared_modifiers (N.lor 1 4)) "")
    by reflexivity.
  split; [exact H1|]. split; [exact H2|]. split; [exact H3|].
  split; [exact Hwf|]. split; [exact E|].
  exact (write_filters_tells_the_set 3 example_label 5%N (N.lor 1 4) ""
           H1 H2 H3 Hwf Hwf E).
Defined.

(** *** The diagnostic rendering of a site record *)

Lemma digit_inj (b b' : bool) (x y : string) :
  String.app (if b then "1" else "0") x = String.app (if b' then "1" else "0") y ->
  b = b' /\ x = y.
Proof.
  destruct b, b'; intros E.
  - change (String "1" x = String "1" y) in E. by simplify_eq.
  - change (String "1" x = String "0" y) in E. discriminate E.
  - change (String "0" x = String "1" y) in E. discriminate E.
  - change (String "0" x = String "0" y) in E. by simplify_eq.
Qed.

Lemma flags_text_inj (a b : site_modifiers) (x y : string) :
  String.app (flags_text a) x = String.app (flags_text b) y ->
  same_flags a b /\ x = y.
Proof.
  unfold flags_text, same_flags. rewrite !str_app_assoc.
  intros E%(inj (String.app _))%digit_inj. destruct E as [-> E].
  apply (inj (String.app _)), digit_inj in E as [-> E].
  apply (inj (String.app _)), digit_inj in E as [-> E].
  apply (inj (String.app _)), digit_inj in E as [-> E].
  apply (inj (String.app _)), digit_inj in E as [-> E].
  done.
Qed.

Section printer.
Variable NONE : nat.
Variable get_gt_label : nat -> string.

Lemma print_site_modifiers_text os smod :
  print_site_modifiers NONE get_gt_label os smod
    = os << String.app (flags_text (smod_base smod))
                       (modgt_text NONE get_gt_label (modified_gt smod)).
Proof.
  unfold print_site_modifiers, put_bool, modgt_text, flags_text, put.
  destruct (bool_decide _); rewrite ?str_app_nil_r, !str_app_assoc; done.
Qed.

(** X13. The text [operator<<] writes for a site record tells its five
    flags, whether a modified genotype is set, and the label of that
    genotype: two records with the same text agree on all of these. The
    text carries the part [modgt] exactly when [modified_gt] is not
    [NONE]. *)
Theorem site_text_tells_the_record (a b : site_modifiers_gt) (os : ostream) :
  print_site_modifiers NONE get_gt_label os a
    = print_site_modifiers NONE get_gt_label os b ->
  same_flags (smod_base a) (smod_base b) /\
  (modified_gt a = NONE <-> modified_gt b = NONE) /\
  (modified_gt a <> NONE ->
     get_gt_label (modified_gt a) = get_gt_label (modified_gt b)).
Proof.
  rewrite !print_site_modifiers_text. unfold put.
  intros E%(inj (String.app os))%flags_text_inj. destruct E as [Hflags E].
  split; [exact Hflags|]. unfold modgt_text in E.
  destruct (decide (modified_gt a = NONE)) as [Ha|Ha];
    destruct (decide (modified_gt b = NONE)) as [Hb|Hb].
  - split; [done|]. by intros ?.
  - exfalso. rewrite bool_decide_eq_false_2 in E by (by intros ?).
    rewrite bool_decide_eq_true_2 in E by done.
    change ("" = String " " (String.app "modgt: " (get_gt_label (modified_gt b)))) in E.
    discriminate E.
  - exfalso. rewrite bool_decide_eq_true_2 in E by done.
    rewrite bool_decide_eq_false_2 in E by (by intros ?).
    change (String " " (String.app "modgt: " (get_gt_label (modified_gt a))) = "") in E.
    discriminate E.
  - rewrite !bool_decide_eq_true_2 in E by done.
    apply (inj (String.app _)) in E. split; [done|]. by intros _.
Qed.

End printer.

Lemma site_text_tells_the_record_witness :
  print_site_modifiers 0 example_label ""
    (mk_site_modifiers_gt
       (mk_site_modifiers (mk_shared_modifiers 5%N) false true true false false) 0)
  = print_site_modifiers 0 example_label ""
    (mk_site_modifiers_gt
       (mk_site_modifiers (mk_shared_modifiers 0%N) false true true false false) 0) /\
  same_flags (mk_site_modifiers (mk_shared_modifiers 5%N) false true true false false)
             (mk_site_modifiers (mk_shared_modifiers 0%N) false true true false false).
Proof.
  assert (E : print_site_modifiers 0 example_label ""
    (mk_site_modifiers_gt
       (mk_site_modifiers (mk_shared_modifiers 5%N) false true true false false) 0)
  = print_site_modifiers 0 example_label ""
    (mk_site_modifiers_gt
       (mk_site_modifiers (mk_shared_modifiers 0%N) false true true false false) 0))
    by reflexivity.
  split; [exact E|].
  exact (proj1 (site_text_tells_the_record 0 example_label _ _ "" E)).
Defined.

End GvcfLocusInfoFacts.

(** ** The FASTA base counter *)

Module CountFastaBasesFacts.
Import CountFastaBases.

Lemma int8_of_char_range c : -128 <= int8_of_char c < 128.
Proof. destruct c; vm_compute; split; congruence. Qed.

Lemma isBase_length : length isBase = 128%nat.
Proof. reflexivity. Qed.

(** A subscript is inside [isBase] exactly from 0 to 127. *)
Lemma isBase_at_is_Some idx : is_Some (isBase_at idx) <-> 0 <= idx < 128.
Proof.
  unfold isBase_at. destruct (idx <? 0) eqn:Hneg.
  - apply Z.ltb_lt in Hneg. split; [by intros [? ?] | lia].
  - apply Z.ltb_ge in Hneg. rewrite lookup_lt_is_Some, isBase_length. lia.
Qed.

(** The subscript computed from a byte is inside [isBase] exactly when
    the byte is below 0x80. *)
Lemma subscript_in_bounds c :
  is_Some (isBase_at (int8_of_char c)) <-> (Byte.to_N c < 128)%N.
Proof.
  rewrite isBase_at_is_Some. unfold int8_of_char.
  pose proof (Byte.to_N_bounded c) as Hb.
  destruct (Z.of_N (Byte.to_N c) <? 128) eqn:E.
  - apply Z.ltb_lt in E. lia.
  - apply Z.ltb_ge in E. lia.
Qed.

(** *** Termination *)

Lemma extract_consumes inp : forall room stored r e,
  extract inp room = (stored, r, e) ->
  match e with
  | HitEof => r = [] /\ (stored = [] -> inp = [])
  | HitDelim => (length r < length inp)%nat
  | HitFull => (length r + room <= length inp)%nat
  end.
Proof.
  induction inp as [|c inp IH]; intros room stored r e; cbn [extract].
  - intros H. by simplify_eq.
  - destruct (bool_decide (c = LF)).
    + intros H. simplify_eq. simpl. lia.
    + destruct room as [|room].
      * intros H. simplify_eq. simpl. lia.
      * destruct (extract inp room) as [[stored' r'] e'] eqn:E.
        intros H. simplify_eq. specialize (IH _ _ _ _ E).
        destruct e; simpl; [|lia|lia].
        destruct IH as [-> _]. by split.
Qed.

Lemma leave_Done ok sr report_os log_os : leave ok sr report_os log_os <> OutOfFuel.
Proof. done. Qed.

(** After a call of [getline] on a stream that is not in a failed state,
    either the loop is left, or the stream the next iteration starts on is
    again not failed and strictly shorter. *)
Lemma getline_progress s buff s1 :
  failbit s = false -> badbit s = false ->
  getline s = (buff, s1) ->
  fail s1 && eofbit s1 = true \/
  (fail s1 && badbit s1 = false /\
   let s2 := if fail s1 then clear s1 else s1 in
   failbit s2 = false /\ badbit s2 = false /\
   (length (rest s2) < length (rest s))%nat).
Proof.
  intros Hf Hb. unfold getline, good. rewrite Hf, Hb, !orb_false_r.
  change (buff_size - 1)%nat with 511%nat.
  destruct (eofbit s) eqn:He; cbn [negb].
  - intros H. simplify_eq. by left.
  - destruct (extract (rest s) 511) as [[stored r] e] eqn:E.
    pose proof (extract_consumes _ _ _ _ _ E) as Hc.
    destruct e; intros H; simplify_eq; unfold fail; simpl.
    + destruct Hc as [-> Hs]. case_bool_decide as Hst; simpl; [by left|].
      right. split; [done|]. split; [done|]. split; [done|].
      destruct (rest s) as [|c l]; [cbn in E; by simplify_eq | simpl; lia].
    + right. by repeat split.
    + right. repeat split; try done. simpl in *. lia.
Qed.

Lemma scan_loop_fuel fuel : forall s hw line_no sr report_os,
  failbit s = false -> badbit s = false ->
  (length (rest s) < fuel)%nat ->
  scan_loop fuel s hw line_no sr report_os <> OutOfFuel.
Proof.
  induction fuel as [|fuel IH]; intros s hw line_no sr report_os Hf Hb Hlen; [lia|].
  cbn [scan_loop]. destruct (getline s) as [buff s1] eqn:Hg.
  destruct (getline_progress _ _ _ Hf Hb Hg) as [-> | (-> & Hf2 & Hb2 & Hlen2)];
    [apply leave_Done|].
  cbv zeta in Hf2, Hb2, Hlen2.
  assert (Hnext : forall hw' ln' sr' out',
            scan_loop fuel (if fail s1 then clear s1 else s1) hw' ln' sr' out'
            <> OutOfFuel).
  { intros. apply IH; [done | done | lia]. }
  destruct (fail s1 && eofbit s1); [apply leave_Done|].
  destruct hw; [apply Hnext|].
  destruct (bool_decide (deref buff = GT)).
  - destruct (report sr report_os) as [sr1 report_os1].
    destruct (bool_decide _); [apply leave_Done | apply Hnext].
  - destruct (_ <=? 1); [apply leave_Done|].
    destruct (count_line buff sr); [apply Hnext | done].
Qed.

(** X20. [get_seq_counts] comes to an end on every stream, whatever its
    bytes and its state flags: an iteration of its loop either leaves the
    function or takes at least one byte off the stream, so one iteration
    more than there are bytes is always enough. *)
Lemma get_seq_counts_terminates s file : get_seq_counts s file <> OutOfFuel.
Proof.
  unfold get_seq_counts.
  destruct (failbit s || badbit s) eqn:Hbits.
  - cbn [scan_loop]. unfold getline, good.
    replace (eofbit s || failbit s || badbit s) with true
      by (destruct (eofbit s), (failbit s), (badbit s); done).
    simpl. unfold fail. simpl.
    destruct (eofbit s); [apply leave_Done|].
    destruct (badbit s); [apply leave_Done|]. simpl. apply leave_Done.
  - apply orb_false_iff in Hbits as [Hf Hb]. apply scan_loop_fuel; [done | done | lia].
Qed.

(** *** Which bytes keep the subscript inside the table *)



Lemma count_line_outside b : forall sr idx,
  count_line b sr = inr idx ->
  exists ch, ch ∈ b /\ idx = int8_of_char ch /\ isBase_at idx = None.
Proof.
  induction b as [|ch b IH]; intros sr idx; cbn [count_line]; [done|].
  destruct (bool_decide (ch = NUL)); [done|].
  assert (Htail : forall sr', count_line b sr' = inr idx ->
            exists ch', ch' ∈ ch :: b /\ idx = int8_of_char ch' /\ isBase_at idx = None).
  { intros sr' H. destruct (IH _ _ H) as (ch' & Hin & Hidx).
    exists ch'. split; [by apply elem_of_cons; right | done]. }
  destruct (bool_decide (CR = ch)); [apply Htail|].
  destruct (isBase_at (int8_of_char ch)) as [[|]|] eqn:E; [apply Htail..|].
  intros H. simplify_eq. exists ch. split; [apply elem_of_cons; by left | done].
Qed.

Lemma extract_Forall (P : byte -> Prop) inp : forall room stored r e,
  Forall P inp ->
  extract inp room = (stored, r, e) -> Forall P stored /\ Forall P r.
Proof.
  induction inp as [|c inp IH]; intros room stored r e Hall; cbn [extract].
  - intros H. by simplify_eq.
  - apply Forall_cons in Hall as [Hc Hall].
    destruct (bool_decide (c = LF)).
    + intros H. by simplify_eq.
    + destruct room as [|room].
      * intros H. simplify_eq. split; [done | by constructor].
      * destruct (extract inp room) as [[stored' r'] e'] eqn:E.
        intros H. simplify_eq. destruct (IH _ _ _ _ Hall E) as [Hst Hr].
        split; [by constructor | done].
Qed.

Lemma getline_Forall (P : byte -> Prop) s buff s1 :
  Forall P (rest s) ->
  getline s = (buff, s1) ->
  Forall P buff /\ Forall P (rest (if fail s1 then clear s1 else s1)).
Proof.
  intros Hall. unfold getline.
  assert (Hrest : forall t, rest (if fail t then clear t else t) = rest t)
    by (intros t; by destruct (fail t)).
  rewrite Hrest. destruct (negb (good s)).
  - intros H. by simplify_eq.
  - destruct (extract (rest s) (buff_size - 1)) as [[stored r] e] eqn:E.
    destruct (extract_Forall P _ _ _ _ _ Hall E) as [Hst Hr].
    destruct e; intros H; by simplify_eq.
Qed.

Lemma scan_loop_in_bounds fuel : forall s hw line_no sr report_os idx,
  Forall seven_bit (rest s) ->
  scan_loop fuel s hw line_no sr report_os <> OutOfBounds idx.
Proof.
  induction fuel as [|fuel IH]; intros s hw line_no sr report_os idx Hall; [done|].
  cbn [scan_loop]. destruct (getline s) as [buff s1] eqn:Hg.
  destruct (getline_Forall _ _ _ _ Hall Hg) as [Hbuff Hrest].
  destruct (fail s1 && eofbit s1); [done|].
  destruct (fail s1 && badbit s1); [done|].
  destruct hw; [by apply IH|].
  destruct (bool_decide (deref buff = GT)).
  - destruct (report sr report_os) as [sr1 report_os1].
    destruct (bool_decide _); [done | by apply IH].
  - destruct (_ <=? 1); [done|].
    destruct (count_line buff sr) as [sr1|idx'] eqn:Hc; [by apply IH|].
    apply count_line_outside in Hc as (ch & Hin & -> & Hnone).
    rewrite Forall_forall in Hbuff. apply Hbuff, subscript_in_bounds in Hin.
    rewrite Hnone in Hin. by destruct Hin.
Qed.

(** X21. On input made of bytes below 0x80 every subscript is inside
    [isBase], and the call runs to its end: it returns, with its report
    and log lines, and never reads outside the table. *)
Lemma seven_bit_input_completes bytes file :
  Forall seven_bit bytes ->
  exists ok report_os log_os,
    get_seq_counts (open_on bytes) file = Done ok report_os log_os.
Proof.
  intros Hall.
  assert (Hfuel : get_seq_counts (open_on bytes) file <> OutOfFuel).
  { unfold get_seq_counts. apply scan_loop_fuel; [done | done | simpl; lia]. }
  pose proof (scan_loop_in_bounds (S (length bytes)) (open_on bytes) false 0
                (scan_result_ctor file) []) as Hin.
  unfold get_seq_counts in *. simpl rest in *.
  destruct (scan_loop _ _ _ _ _ _) as [ok r l|idx|]; [by eauto | | done].
  by destruct (Hin idx Hall).
Qed.

Lemma seven_bit_input_completes_witness :
  Forall seven_bit (one_base_fasta Byte.x4e) /\
  exists ok report_os log_os,
    get_seq_counts (open_on (one_base_fasta Byte.x4e)) "stdin"
      = Done ok report_os log_os.
Proof.
  assert (H : Forall seven_bit (one_base_fasta Byte.x4e))
    by (repeat constructor).
  split; [exact H|]. exact (seven_bit_input_completes _ "stdin" H).
Defined.

(** C10 fails on the code. A byte of 0x80 or above on a sequence line
    reaches the counting loop, where [static_cast<int8_t>] makes it a
    negative subscript: the read of [isBase] is outside the array. *)
Theorem high_byte_reads_outside_isBase (ch : byte) (file : string) :
  (128 <= Byte.to_N ch)%N ->
  get_seq_counts (open_on (one_base_fasta ch)) file = OutOfBounds (int8_of_char ch) /\
  int8_of_char ch = Z.of_N (Byte.to_N ch) - 256 /\
  int8_of_char ch < 0 /\
  isBase_at (int8_of_char ch) = None.
Proof.
  intros H.
  destruct ch;
    first [ by (exfalso; apply H)
          | (split; [vm_compute; reflexivity | by vm_compute]) ].
Qed.

Lemma high_byte_reads_outside_isBase_witness :
  (128 <= Byte.to_N Byte.xe9)%N /\
  get_seq_counts (open_on (one_base_fasta Byte.xe9)) "stdin" = OutOfBounds (-23).
Proof.
  assert (H : (128 <= Byte.to_N Byte.xe9)%N) by (vm_compute; discriminate).
  split; [exact H|].
  exact (proj1 (high_byte_reads_outside_isBase Byte.xe9 "stdin" H)).
Defined.

(** *** The table, the words and the counting loop *)

Lemma isBase_marks_ACGTacgt_aux (c : byte) :
  seven_bit c -> isBase_at (int8_of_char c) = Some (is_acgt c).
Proof.
  unfold seven_bit. intros H.
  destruct c; first [ by (exfalso; vm_compute in H; discriminate H) | reflexivity ].
Qed.

(** X14. For every byte below 0x80 the table lookup of the counting loop
    is inside [isBase] and says whether the byte is one of [ACGTacgt], the
    known bases of the usage text. *)
Theorem isBase_marks_ACGTacgt (c : byte) :
  seven_bit c -> isBase_at (int8_of_char c) = Some (is_acgt c).
Proof.
  unfold seven_bit. intros H. destruct c.
  all: first [ reflexivity | exfalso; vm_compute in H; discriminate H ].
Qed.

Lemma isBase_marks_ACGTacgt_witness :
  seven_bit Byte.x47 /\ isBase_at (int8_of_char Byte.x47) = Some true.
Proof.
  assert (H : seven_bit Byte.x47) by reflexivity.
  split; [exact H|]. exact (isBase_marks_ACGTacgt Byte.x47 H).
Defined.

(** X15. [next_word] returns a tail of its argument. With [is_end] false
    the bytes it passes over are blanks, and it stops at the end, at a NUL
    or at a byte that is not a blank; with [is_end] true it passes over
    bytes that are neither blank nor NUL and stops at the end, at a NUL or
    at a blank. *)
Theorem next_word_skips (c : list byte) (is_end : bool) :
  exists skipped,
    c = skipped ++ next_word c is_end /\
    Forall (fun ch => ch <> NUL /\ isspace ch = negb is_end) skipped /\
    (next_word c is_end = [] \/
     deref (next_word c is_end) = NUL \/
     isspace (deref (next_word c is_end)) = is_end).
Proof.
  induction c as [|ch c IH].
  - exists []. split; [done|]. split; [constructor | by left].
  - cbn [next_word]. case_bool_decide as Hnul; cbn [negb andb].
    + exists []. split; [done|]. split; [constructor|]. right. left. done.
    + destruct (xorb is_end (isspace ch)) eqn:Hx.
      * destruct IH as (skipped & E & Hall & Hstop).
        exists (ch :: skipped). split; [by rewrite E at 1|]. split; [|done].
        constructor; [|done]. split; [done|]. by destruct is_end, (isspace ch).
      * exists []. split; [done|]. split; [constructor|]. right. right.
        cbn. by destruct is_end, (isspace ch).
Qed.

Lemma incr_iter_comm n c : Nat.iter n incr (incr c) = incr (Nat.iter n incr c).
Proof. induction n as [|n IH]; [done|]. simpl. by rewrite IH. Qed.

Lemma incr_iter_Some n v :
  0 <= v -> v + Z.of_nat n < UINT_MODULUS ->
  Nat.iter n incr (Some v) = Some (v + Z.of_nat n).
Proof.
  induction n as [|n IH]; intros Hv Hn; simpl.
  - f_equal. lia.
  - rewrite IH by lia. simpl. f_equal.
    rewrite wrap_unsigned_small; lia.
Qed.

Lemma count_line_bumped b : forall sr,
  Forall seven_bit (c_string b) ->
  count_line b sr
    = inl (bumped (count_if is_acgt (c_string b)) (count_if counted (c_string b)) sr).
Proof.
  induction b as [|ch b IH]; intros sr Hall.
  - by destruct sr.
  - cbn [count_line c_string] in *. case_bool_decide as Hnul; [by destruct sr|].
    apply Forall_cons in Hall as [Hch Hall].
    unfold count_if. cbn [List.filter]. unfold counted at 1.
    case_bool_decide as Hcr; cbn [negb].
    + subst ch. rewrite IH by done. done.
    + rewrite (isBase_marks_ACGTacgt_aux ch Hch).
      destruct (is_acgt ch); rewrite IH by done; unfold bumped, count_if; cbn;
        by rewrite ?incr_iter_comm.
Qed.

(** X16. On a buffer whose bytes before the first NUL are below 0x80 the
    counting loop ends normally, having incremented [totalCount] once for
    each of these bytes other than [\r] and [knownCount] once for each of
    [ACGTacgt] among them; the other members stay. Counts that start in
    range and stay below [2^32] are the sums. *)
Theorem count_line_counts (b : list byte) (sr : scan_result) :
  Forall seven_bit (c_string b) ->
  count_line b sr
    = inl (bumped (count_if is_acgt (c_string b)) (count_if counted (c_string b)) sr) /\
  (forall k t,
     knownCount sr = Some k -> totalCount sr = Some t ->
     0 <= k -> 0 <= t ->
     k + Z.of_nat (count_if is_acgt (c_string b)) < UINT_MODULUS ->
     t + Z.of_nat (count_if counted (c_string b)) < UINT_MODULUS ->
     count_line b sr
       = inl (mk_scan_result (fileName sr) (contigName sr)
                (Some (k + Z.of_nat (count_if is_acgt (c_string b))))
                (Some (t + Z.of_nat (count_if counted (c_string b)))) (_isSet sr))).
Proof.
  intros Hall. split; [by apply count_line_bumped|].
  intros k t Hk Ht Hk0 Ht0 Hkb Htb. rewrite count_line_bumped by done.
  unfold bumped. rewrite Hk, Ht, !incr_iter_Some by done. done.
Qed.

Lemma count_line_counts_witness :
  Forall seven_bit (c_string [Byte.x41; CR; Byte.x4e; NUL; Byte.xe9]) /\
  count_line [Byte.x41; CR; Byte.x4e; NUL; Byte.xe9]
             (mk_scan_result "f" [Byte.x63] (Some 0) (Some 0) true)
    = inl (mk_scan_result "f" [Byte.x63] (Some 1) (Some 2) true).
Proof.
  assert (H : Forall seven_bit (c_string [Byte.x41; CR; Byte.x4e; NUL; Byte.xe9]))
    by (repeat constructor).
  split; [exact H|].
  exact (proj2 (count_line_counts [Byte.x41; CR; Byte.x4e; NUL; Byte.xe9]
                  (mk_scan_result "f" [Byte.x63] (Some 0) (Some 0) true) H)
               0 0 eq_refl eq_refl (Z.le_refl 0) (Z.le_refl 0) eq_refl eq_refl).
Defined.

(** *** Lines *)

Lemma extract_whole_line l : forall room t,
  Forall (fun c => c <> LF) l ->
  (length l <= room)%nat ->
  extract (l ++ LF :: t) room = (l, t, HitDelim) /\
  extract l room = (l, [], HitEof).
Proof.
  induction l as [|c l IH]; intros room t Hall Hlen.
  - split; [|done]. cbn [app extract]. by rewrite bool_decide_eq_true_2.
  - apply Forall_cons in Hall as [Hc Hall]. cbn [app extract length] in *.
    rewrite bool_decide_eq_false_2 by done.
    destruct room as [|room]; [lia|].
    destruct (IH room t Hall) as [-> ->]; [lia|]. done.
Qed.

(** How an extraction splits the input. *)
Lemma extract_splits inp : forall room stored r e,
  extract inp room = (stored, r, e) ->
  Forall (fun c => c <> LF) stored /\
  match e with
  | HitEof => inp = stored /\ r = []
  | HitDelim => inp = stored ++ LF :: r
  | HitFull => inp = stored ++ r /\ length stored = room /\ r <> []
  end.
Proof.
  induction inp as [|c inp IH]; intros room stored r e; cbn [extract].
  - intros H. by simplify_eq.
  - case_bool_decide as Hlf.
    + intros H. simplify_eq. done.
    + destruct room as [|room].
      * intros H. simplify_eq. done.
      * destruct (extract inp room) as [[stored' r'] e'] eqn:E.
        intros H. simplify_eq. destruct (IH _ _ _ _ E) as [Hall Hsplit].
        split; [by constructor|].
        destruct e; [by destruct Hsplit as [-> ->] | by rewrite Hsplit |].
        destruct Hsplit as (-> & <- & Hr). done.
Qed.

Lemma isspace_not_NUL c : isspace c = true -> c <> NUL.
Proof. by intros H ->. Qed.

Lemma next_word_blanks ws :
  Forall (fun c => isspace c = true /\ c <> LF) ws -> next_word ws false = [].
Proof.
  induction 1 as [|c ws [Hc _] _ IH]; [done|]. cbn [next_word].
  rewrite bool_decide_eq_false_2 by by apply isspace_not_NUL.
  by rewrite Hc.
Qed.

Lemma next_word_past_blanks ws l :
  Forall (fun c => isspace c = true /\ c <> LF) ws ->
  isspace (deref l) = false ->
  next_word (ws ++ l) false = l.
Proof.
  intros Hws Hl. induction Hws as [|c ws [Hc _] _ IH].
  - destruct l as [|x l]; [done|]. cbn [app next_word]. cbn in Hl.
    by rewrite Hl, andb_false_r.
  - cbn [app next_word]. rewrite bool_decide_eq_false_2 by by apply isspace_not_NUL.
    by rewrite Hc.
Qed.

Lemma next_word_past_token name l :
  Forall (fun c => isspace c = false /\ c <> NUL) name ->
  l = [] \/ isspace (deref l) = true \/ deref l = NUL ->
  next_word (name ++ l) true = l.
Proof.
  intros Hname Hl. induction Hname as [|c name [Hc Hn] _ IH].
  - destruct l as [|x l]; [done|]. cbn [app next_word]. cbn in Hl.
    destruct Hl as [|[Hl|Hl]]; [done | |].
    + by rewrite Hl, andb_false_r.
    + by rewrite bool_decide_eq_true_2.
  - cbn [app next_word]. rewrite bool_decide_eq_false_2 by done. by rewrite Hc.
Qed.

Lemma c_string_id b : Forall (fun c => c <> NUL) b -> c_string b = b.
Proof.
  induction 1 as [|c b Hc _ IH]; [done|]. cbn [c_string].
  rewrite bool_decide_eq_false_2 by done. by rewrite IH.
Qed.

(** Blanks hold no NUL. *)
Lemma blanks_no_NUL (ws : list byte) :
  Forall (fun c => isspace c = true /\ c <> LF) ws -> Forall (fun c => c <> NUL) ws.
Proof.
  intros H. eapply Forall_impl; [exact H|]. intros c [Hc _] ->. discriminate Hc.
Qed.

(** X17. Input that does not begin with [>] is never counted: empty
    input gives success with nothing reported, and any other gives the
    failure that reports a missing header, whatever its bytes are. *)
Theorem no_header_no_count (bytes : list byte) (file : string) :
  deref bytes <> GT ->
  get_seq_counts (open_on bytes) file
    = match bytes with
      | [] => Done true [] []
      | _ => Done false [] [ErrMissingHeader]
      end.
Proof.
  intros Hgt. destruct bytes as [|c bytes]; [reflexivity|].
  cbn [deref head default] in Hgt.
  unfold get_seq_counts, open_on. cbn [rest scan_loop].
  unfold getline, good. cbn [eofbit failbit badbit orb negb rest].
  change (buff_size - 1)%nat with 511%nat. cbn [extract].
  case_bool_decide as Hlf.
  - cbn. rewrite bool_decide_eq_false_2; [reflexivity | by subst c].
  - destruct (extract bytes 510) as [[stored r] e].
    destruct e; cbn; rewrite (bool_decide_eq_false_2 (c = GT)) by done; reflexivity.
Qed.

Lemma no_header_no_count_witness :
  deref [Byte.xe9; Byte.x41; LF] <> GT /\
  get_seq_counts (open_on [Byte.xe9; Byte.x41; LF]) "stdin"
    = Done false [] [ErrMissingHeader].
Proof.
  assert (H : deref [Byte.xe9; Byte.x41; LF] <> GT) by discriminate.
  split; [exact H|]. exact (no_header_no_count [Byte.xe9; Byte.x41; LF] "stdin" H).
Defined.

(** X18. A first line that is [>] followed by blanks only names no
    contig: the call fails with the header format error of line 1, and
    nothing is reported. *)
Theorem header_without_name (ws t : list byte) (file : string) :
  Forall (fun c => isspace c = true /\ c <> LF) ws ->
  (length ws <= 510)%nat ->
  t = [] \/ (exists t', t = LF :: t') ->
  get_seq_counts (open_on (GT :: ws ++ t)) file
    = Done false [] [ErrHeaderFormat 1 (GT :: ws)].
Proof.
  intros Hws Hlen Ht.
  assert (Hnolf : Forall (fun c => c <> LF) ws)
    by (eapply Forall_impl; [exact Hws | by intros c [_ ?]]).
  unfold get_seq_counts, open_on. cbn [rest scan_loop].
  unfold getline, good. cbn [eofbit failbit badbit orb negb rest].
  change (buff_size - 1)%nat with 511%nat. cbn [extract].
  rewrite (bool_decide_eq_false_2 (GT = LF)) by discriminate.
  assert (Hex : exists r e, extract (ws ++ t) 510 = (ws, r, e) /\ e <> HitFull).
  { destruct Ht as [->|[t' ->]].
    - rewrite app_nil_r. exists [], HitEof.
      split; [by apply (extract_whole_line ws 510 []) | done].
    - exists t', HitDelim. split; [by apply extract_whole_line | done]. }
  destruct Hex as (r & e & -> & He).
  destruct e; [| |done]; cbn; rewrite next_word_blanks by done;
    rewrite (c_string_id ws (blanks_no_NUL ws Hws)); reflexivity.
Qed.

Lemma header_without_name_witness :
  Forall (fun c => isspace c = true /\ c <> LF) [Byte.x20; Byte.x09] /\
  get_seq_counts (open_on (GT :: [Byte.x20; Byte.x09] ++ [LF; Byte.x41; LF])) "stdin"
    = Done false [] [ErrHeaderFormat 1 [GT; Byte.x20; Byte.x09]].
Proof.
  assert (H : Forall (fun c => isspace c = true /\ c <> LF) [Byte.x20; Byte.x09]).
  { repeat constructor; discriminate. }
  split; [exact H|].
  apply (header_without_name [Byte.x20; Byte.x09] [LF; Byte.x41; LF] "stdin" H).
  - simpl. lia.
  - right. by eexists.
Defined.

(** *** A whole record *)

Lemma count_if_app p a b : count_if p (a ++ b) = (count_if p a + count_if p b)%nat.
Proof. unfold count_if. by rewrite List.filter_app, length_app. Qed.

Lemma count_if_le p b : (count_if p b <= length b)%nat.
Proof. unfold count_if. apply List.filter_length_le. Qed.

Lemma count_if_no_LF b :
  Forall (fun c => c <> LF) b -> count_if is_base_byte b = count_if counted b.
Proof.
  unfold count_if. induction 1 as [|c b Hc _ IH]; [done|].
  cbn [List.filter]. unfold is_base_byte at 1.
  rewrite (bool_decide_eq_false_2 (c = LF)) by done. cbn [negb andb].
  destruct (counted c); simpl; by rewrite IH.
Qed.

(** The counting loop on one chunk of a sequence text. *)
Lemma count_line_chunk stored name file k t :
  Forall sequence_byte stored ->
  0 <= k -> 0 <= t ->
  k + Z.of_nat (length stored) < UINT_MODULUS ->
  t + Z.of_nat (length stored) < UINT_MODULUS ->
  count_line stored (mk_scan_result file name (Some k) (Some t) true)
    = inl (mk_scan_result file name
             (Some (k + Z.of_nat (count_if is_acgt stored)))
             (Some (t + Z.of_nat (count_if counted stored))) true).
Proof.
  intros Hall Hk Ht Hkb Htb.
  assert (Hs : c_string stored = stored).
  { apply c_string_id. eapply Forall_impl; [exact Hall | by intros c (_ & ? & _)]. }
  rewrite count_line_bumped; rewrite Hs;
    [| eapply Forall_impl; [exact Hall | by intros c (? & _)]].
  unfold bumped. cbn [fileName contigName knownCount totalCount _isSet].
  pose proof (count_if_le is_acgt stored). pose proof (count_if_le counted stored).
  rewrite !incr_iter_Some by lia. done.
Qed.

(** The loop over the sequence text [body] that follows a header: the
    stream holds [body], the record of the contig is set, and neither the
    line counter nor the counts can wrap on what is left. *)
Lemma scan_loop_body fuel : forall s body line_no name file k t report_os,
  rest s = body -> failbit s = false -> badbit s = false ->
  (eofbit s = true -> body = []) ->
  Forall sequence_byte body ->
  1 <= line_no -> line_no + Z.of_nat (length body) < UINT_MODULUS - 1 ->
  0 <= k -> 0 <= t ->
  k + Z.of_nat (length body) < UINT_MODULUS ->
  t + Z.of_nat (length body) < UINT_MODULUS ->
  (length body < fuel)%nat ->
  scan_loop fuel s false line_no
            (mk_scan_result file name (Some k) (Some t) true) report_os
    = Done true
        (report_os ++ [mk_report_line file name
                         (Some (k + Z.of_nat (count_if is_acgt body)))
                         (Some (t + Z.of_nat (count_if is_base_byte body)))])
        [].
Proof.
  induction fuel as [|fuel IH];
    intros s body line_no name file k t report_os
           Hrest Hf Hb Heof Hall Hln Hlnb Hk Ht Hkb Htb Hfuel; [lia|].
  destruct s as [rs eb fb bb]. cbn [rest failbit badbit eofbit] in *. subst rs fb bb.
  cbn [scan_loop]. unfold getline, good. cbn [rest failbit badbit eofbit].
  rewrite !orb_false_r. change (buff_size - 1)%nat with 511%nat.
  destruct eb; cbn [negb].
  { rewrite (Heof eq_refl). cbn. by rewrite !Z.add_0_r. }
  destruct (extract body 511) as [[stored r] e] eqn:E.
  destruct (extract_splits _ _ _ _ _ E) as [Hnolf Hsplit].
  assert (Hgt : forall l, Forall sequence_byte l -> bool_decide (deref l = GT) = false).
  { intros [|x l] Hl; [done|]. apply Forall_cons in Hl as [(_ & _ & Hx) _].
    by apply bool_decide_eq_false_2. }
  assert (Hchk : forall z, 2 <= z < UINT_MODULUS -> (wrap_unsigned z <=? 1) = false).
  { intros z Hz. rewrite wrap_unsigned_small by lia. apply Z.leb_gt. lia. }
  destruct e.
  - (* end of input *)
    destruct Hsplit as [<- ->]. destruct (decide (body = [])) as [->|Hne].
    + cbn. by rewrite !Z.add_0_r.
    + assert (0 < length body)%nat by (destruct body; [done | simpl; lia]).
      rewrite (bool_decide_eq_false_2 (body = [])) by done.
      cbn [fail failbit badbit eofbit orb andb Z_of_bool].
      rewrite Hgt by done.
      rewrite (wrap_unsigned_small (line_no + 1)) by lia.
      rewrite Z.add_0_r, Hchk by lia.
      rewrite count_line_chunk by done.
      erewrite (IH _ []);
        [| reflexivity | reflexivity | reflexivity | done | constructor | lia
         | simpl; lia
         | lia | lia
         | pose proof (count_if_le is_acgt body); simpl; lia
         | pose proof (count_if_le counted body); simpl; lia
         | simpl; lia].
      rewrite (count_if_no_LF body) by done.
      change (count_if is_acgt []) with 0%nat.
      change (count_if is_base_byte []) with 0%nat.
      by rewrite !Z.add_0_r.
  - (* a line end *)
    subst body. apply Forall_app in Hall as [Hst Hr].
    apply Forall_cons in Hr as [_ Hr]. rewrite length_app in *. cbn [length] in *.
    cbn [fail failbit badbit eofbit orb andb Z_of_bool].
    rewrite Hgt by done.
    rewrite (wrap_unsigned_small (line_no + 1)) by lia.
    rewrite Z.add_0_r, Hchk by lia.
    rewrite count_line_chunk by (done || lia).
    erewrite (IH _ r);
      [| reflexivity | reflexivity | reflexivity | done | done | lia
       | lia
       | lia | lia
       | pose proof (count_if_le is_acgt stored); lia
       | pose proof (count_if_le counted stored); lia
       | lia].
    rewrite !count_if_app. change (LF :: r) with ([LF] ++ r). rewrite !count_if_app.
    rewrite (count_if_no_LF stored) by done.
    change (count_if is_acgt [LF]) with 0%nat.
    change (count_if is_base_byte [LF]) with 0%nat.
    do 3 f_equal. f_equal; f_equal; lia.
  - (* the buffer is full *)
    destruct Hsplit as (-> & Hlen & Hr). apply Forall_app in Hall as [Hst Hrr].
    rewrite length_app in *.
    cbn [fail failbit badbit eofbit orb andb Z_of_bool clear rest].
    rewrite Hgt by done. rewrite Hchk by lia.
    rewrite count_line_chunk by (done || lia).
    erewrite (IH _ r);
      [| reflexivity | reflexivity | reflexivity | done | done | lia | lia | lia | lia
       | pose proof (count_if_le is_acgt stored); lia
       | pose proof (count_if_le counted stored); lia
       | lia].
    rewrite !count_if_app. rewrite (count_if_no_LF stored) by done.
    do 3 f_equal. f_equal; f_equal; lia.
Qed.

Lemma header_line_no_LF h : header_ok h -> Forall (fun c => c <> LF) (header_line h).
Proof.
  intros (Hpad & _ & Hname & Hdesc & _). unfold header_line.
  constructor; [discriminate|]. rewrite !Forall_app. split; [|split; [|done]].
  - eapply Forall_impl; [exact Hpad | by intros c [_ ?]].
  - eapply Forall_impl; [exact Hname|]. intros c [Hc _] ->. discriminate Hc.
Qed.

(** The header branch of the loop on a header line: the contig name it
    passes to [reset]. *)
Lemma header_words h :
  header_ok h ->
  let ns := next_word (tail (header_line h)) false in
  ns = hp_name h ++ hp_desc h /\
  deref ns <> NUL /\
  take (length ns - length (next_word (tail ns) true)) ns = hp_name h.
Proof.
  intros (Hpad & Hne & Hname & _ & Hdesc & _). cbv zeta. unfold header_line. cbn [tail].
  destruct (hp_name h) as [|n0 name] eqn:En; [done|].
  apply Forall_cons in Hname as [[Hn0 Hn0'] Hname].
  rewrite next_word_past_blanks by done. split; [done|]. split; [done|].
  cbn [app tail]. rewrite next_word_past_token by done.
  cbn [length]. rewrite length_app.
  replace (S (length name + length (hp_desc h)) - length (hp_desc h))%nat
    with (length (n0 :: name)) by (simpl; lia).
  exact (take_app_length (n0 :: name) (hp_desc h)).
Qed.

(** The case of a single record: a header line with a contig name and the
    sequence text under it give one report line. *)
Theorem one_record_counts (h : header_parts) (body : list byte) (file : string) :
  header_ok h ->
  Forall sequence_byte body ->
  Z.of_nat (length body) < UINT_MODULUS - 2 ->
  get_seq_counts (open_on (header_line h ++ LF :: body)) file
    = Done true
        [mk_report_line file (hp_name h)
           (Some (Z.of_nat (count_if is_acgt body)))
           (Some (Z.of_nat (count_if is_base_byte body)))]
        [].
Proof.
  intros Hh Hbody Hlen.
  pose proof (header_line_no_LF h Hh) as Hnolf.
  destruct (header_words h Hh) as (Hns & Hnul & Hname).
  assert (Hfit : (length (header_line h) <= 511)%nat) by apply Hh.
  unfold get_seq_counts, open_on. cbn [rest scan_loop].
  unfold getline, good. cbn [eofbit failbit badbit orb negb rest].
  change (buff_size - 1)%nat with 511%nat.
  rewrite (proj1 (extract_whole_line (header_line h) 511 body Hnolf Hfit)).
  cbn [fail failbit badbit eofbit orb andb Z_of_bool].
  rewrite (bool_decide_eq_true_2 (deref (header_line h) = GT)) by done.
  cbn [report scan_result_ctor _isSet negb].
  rewrite (bool_decide_eq_false_2 _ Hnul).
  change (wrap_unsigned (0 + 1)) with 1.
  unfold reset. rewrite Hname. cbn [fileName].
  apply (scan_loop_body _ _ body 1 (hp_name h) file 0 0 []); try done.
  - lia.
  - lia.
  - lia.
  - rewrite length_app. simpl. lia.
Qed.

Lemma one_record_counts_witness :
  header_ok (mk_header_parts [] [Byte.x63] [Byte.x20; Byte.x78]) /\
  Forall sequence_byte [Byte.x41; Byte.x4e; LF; Byte.x67; CR; LF] /\
  get_seq_counts
    (open_on (header_line (mk_header_parts [] [Byte.x63] [Byte.x20; Byte.x78])
              ++ LF :: [Byte.x41; Byte.x4e; LF; Byte.x67; CR; LF])) "stdin"
    = Done true [mk_report_line "stdin" [Byte.x63] (Some 2) (Some 3)] [].
Proof.
  assert (Hh : header_ok (mk_header_parts [] [Byte.x63] [Byte.x20; Byte.x78])).
  { unfold header_ok. cbn.
    split; [constructor|]. split; [discriminate|].
    split; [repeat constructor; discriminate|].
    split; [repeat constructor; discriminate|].
    split; [right; by left | lia]. }
  assert (Hb : Forall sequence_byte [Byte.x41; Byte.x4e; LF; Byte.x67; CR; LF]).
  { repeat constructor; discriminate. }
  split; [exact Hh|]. split; [exact Hb|].
  apply (one_record_counts _ _ "stdin" Hh Hb). reflexivity.
Defined.

(** *** Several records *)

Lemma extract_app inp : forall room stored r e tail,
  extract inp room = (stored, r, e) ->
  e <> HitEof ->
  extract (inp ++ tail) room = (stored, r ++ tail, e).
Proof.
  induction inp as [|c inp IH]; intros room stored r e tail; cbn [app extract].
  - intros H. by simplify_eq.
  - case_bool_decide as Hlf.
    + intros H _. by simplify_eq.
    + destruct room as [|room].
      * intros H _. by simplify_eq.
      * destruct (extract inp room) as [[stored' r'] e'] eqn:E.
        intros H He. simplify_eq. by rewrite (IH _ _ _ _ tail E He).
Qed.

Lemma extract_sees_LF inp room stored r e :
  last inp = Some LF -> extract inp room = (stored, r, e) -> e <> HitEof.
Proof.
  intros Hlast E ->. destruct (extract_splits _ _ _ _ _ E) as [Hall [<- _]].
  apply last_Some_elem_of in Hlast. rewrite Forall_forall in Hall.
  by apply (Hall LF).
Qed.

Lemma last_app_nonempty {A} (a b : list A) : b <> [] -> last (a ++ b) = last b.
Proof.
  intros Hb. rewrite last_app. destruct (last b) eqn:E; [done|].
  by apply last_None in E.
Qed.

Lemma report_fileName sr out : fileName (fst (report sr out)) = fileName sr.
Proof. unfold report. by destruct (_isSet sr). Qed.

(** One iteration on a header line. *)
Lemma scan_loop_header fuel h text line_no sr report_os :
  header_ok h ->
  0 <= line_no -> line_no + 1 < UINT_MODULUS ->
  scan_loop (S fuel) (mk_istream (header_line h ++ LF :: text) false false false)
            false line_no sr report_os
    = scan_loop fuel (mk_istream text false false false) false (line_no + 1)
                (mk_scan_result (fileName sr) (hp_name h) (Some 0) (Some 0) true)
                (snd (report sr report_os)).
Proof.
  intros Hh Hln Hlnb.
  pose proof (header_line_no_LF h Hh) as Hnolf.
  destruct (header_words h Hh) as (Hns & Hnul & Hname).
  assert (Hfit : (length (header_line h) <= 511)%nat) by apply Hh.
  cbn [scan_loop]. unfold getline, good. cbn [eofbit failbit badbit orb negb rest].
  change (buff_size - 1)%nat with 511%nat.
  rewrite (proj1 (extract_whole_line (header_line h) 511 text Hnolf Hfit)).
  cbn [fail failbit badbit eofbit orb andb Z_of_bool].
  rewrite (bool_decide_eq_true_2 (deref (header_line h) = GT)) by done.
  pose proof (report_fileName sr report_os) as Hfile.
  destruct (report sr report_os) as [sr1 out1]. cbn [fst snd] in *.
  rewrite (bool_decide_eq_false_2 _ Hnul).
  unfold reset. rewrite Hname, Hfile. by rewrite wrap_unsigned_small by lia.
Qed.

(** The loop over a sequence text that another record follows. *)
Lemma scan_loop_text fuel : forall body tail line_no name file k t report_os,
  Forall sequence_byte body ->
  body = [] \/ last body = Some LF ->
  1 <= line_no -> line_no + Z.of_nat (length body) < UINT_MODULUS - 1 ->
  0 <= k -> 0 <= t ->
  k + Z.of_nat (length body) < UINT_MODULUS ->
  t + Z.of_nat (length body) < UINT_MODULUS ->
  (length body + length tail < fuel)%nat ->
  exists fuel' line_no',
    (length tail < fuel')%nat /\
    1 <= line_no' <= line_no + Z.of_nat (length body) /\
    scan_loop fuel (mk_istream (body ++ tail) false false false) false line_no
              (mk_scan_result file name (Some k) (Some t) true) report_os
      = scan_loop fuel' (mk_istream tail false false false) false line_no'
                  (mk_scan_result file name
                     (Some (k + Z.of_nat (count_if is_acgt body)))
                     (Some (t + Z.of_nat (count_if is_base_byte body))) true)
                  report_os.
Proof.
  induction fuel as [|fuel IH];
    intros body tail line_no name file k t report_os
           Hall Hend Hln Hlnb Hk Ht Hkb Htb Hfuel; [lia|].
  destruct (decide (body = [])) as [->|Hne].
  { exists (S fuel), line_no. cbn [app length] in *.
    split; [lia|]. split; [lia|].
    change (count_if is_acgt []) with 0%nat.
    change (count_if is_base_byte []) with 0%nat. by rewrite !Z.add_0_r. }
  destruct Hend as [|Hlast]; [done|].
  cbn [scan_loop]. unfold getline, good. cbn [eofbit failbit badbit orb negb rest].
  change (buff_size - 1)%nat with 511%nat.
  destruct (extract body 511) as [[stored r] e] eqn:E.
  pose proof (extract_sees_LF _ _ _ _ _ Hlast E) as He.
  rewrite (extract_app _ _ _ _ _ tail E He).
  destruct (extract_splits _ _ _ _ _ E) as [Hnolf Hsplit].
  assert (Hgt : forall l, Forall sequence_byte l -> bool_decide (deref l = GT) = false).
  { intros [|x l] Hl; [done|]. apply Forall_cons in Hl as [(_ & _ & Hx) _].
    by apply bool_decide_eq_false_2. }
  assert (Hchk : forall z, 2 <= z < UINT_MODULUS -> (wrap_unsigned z <=? 1) = false).
  { intros z Hz. rewrite wrap_unsigned_small by lia. apply Z.leb_gt. lia. }
  destruct e; [done | |].
  - subst body. apply Forall_app in Hall as [Hst Hr].
    apply Forall_cons in Hr as [_ Hr]. rewrite length_app in *. cbn [length] in *.
    cbn [fail failbit badbit eofbit orb andb Z_of_bool].
    rewrite Hgt by done.
    rewrite (wrap_unsigned_small (line_no + 1)) by lia.
    rewrite Z.add_0_r, Hchk by lia.
    rewrite count_line_chunk by (done || lia).
    assert (Hr_end : r = [] \/ last r = Some LF).
    { destruct r as [|x r]; [by left | right].
      by rewrite last_app_nonempty, last_cons_cons in Hlast. }
    edestruct (IH r tail (line_no + 1) name file) as (fuel' & ln' & Hf' & Hln' & ->);
      [exact Hr | exact Hr_end | lia | lia | | | | | |].
    6: { exists fuel', ln'. split; [done|]. split; [lia|].
         rewrite !count_if_app. change (LF :: r) with ([LF] ++ r).
         rewrite !count_if_app, (count_if_no_LF stored) by done.
         change (count_if is_acgt [LF]) with 0%nat.
         change (count_if is_base_byte [LF]) with 0%nat.
         do 2 f_equal; f_equal; lia. }
    all: pose proof (count_if_le is_acgt stored);
         pose proof (count_if_le counted stored); lia.
  - destruct Hsplit as (-> & Hlen & Hr). apply Forall_app in Hall as [Hst Hrr].
    rewrite length_app in *.
    cbn [fail failbit badbit eofbit orb andb Z_of_bool clear rest].
    rewrite Hgt by done. rewrite Hchk by lia.
    rewrite count_line_chunk by (done || lia).
    assert (Hr_end : r = [] \/ last r = Some LF).
    { right. by rewrite last_app_nonempty in Hlast. }
    edestruct (IH r tail line_no name file) as (fuel' & ln' & Hf' & Hln' & ->);
      [exact Hrr | exact Hr_end | lia | lia | | | | | |].
    6: { exists fuel', ln'. split; [done|]. split; [lia|].
         rewrite !count_if_app, (count_if_no_LF stored) by done.
         do 2 f_equal; f_equal; lia. }
    all: pose proof (count_if_le is_acgt stored);
         pose proof (count_if_le counted stored); lia.
Qed.

Lemma records_text_cons r rs :
  records_text (r :: rs) = header_line (fst r) ++ LF :: (snd r ++ records_text rs).
Proof. unfold records_text, record_text. cbn. by rewrite <- app_assoc. Qed.

(** The loop over the text of records, from any state of the contig
    record. *)
Lemma scan_loop_records rs : forall fuel line_no sr file report_os,
  records_ok rs ->
  fileName sr = file ->
  0 <= line_no ->
  line_no + Z.of_nat (length (records_text rs)) < UINT_MODULUS - 1 ->
  (length (records_text rs) < fuel)%nat ->
  scan_loop fuel (mk_istream (records_text rs) false false false) false line_no
            sr report_os
    = Done true (snd (report sr report_os) ++ (record_report file <$> rs)) [].
Proof.
  induction rs as [|[h body] rs IH];
    intros fuel line_no sr file report_os Hok Hfile Hln Hlnb Hfuel.
  - destruct fuel as [|fuel]; [simpl in Hfuel; lia|].
    cbn. by rewrite app_nil_r.
  - destruct Hok as (Hh & Hbody & Hend & Hok). cbn [fst snd] in *.
    rewrite records_text_cons in *. cbn [fst snd] in *.
    rewrite length_app in Hlnb, Hfuel. cbn [length] in Hlnb, Hfuel.
    rewrite length_app in Hlnb, Hfuel.
    destruct fuel as [|fuel]; [lia|].
    rewrite scan_loop_header by (done || lia). rewrite Hfile.
    destruct rs as [|r' rs'].
    + change (records_text []) with (@nil byte) in *. rewrite app_nil_r.
      cbn [length] in *.
      rewrite scan_loop_body with (body := body); try done; try lia.
    + assert (Hbend : body = [] \/ last body = Some LF)
        by (destruct Hend as [H|[H|H]]; [done | by left | by right]).
      edestruct (scan_loop_text fuel body (records_text (r' :: rs')) (line_no + 1)
                   (hp_name h) file 0 0)
        as (fuel' & ln' & Hf' & Hln' & ->); [done | done | lia | lia | lia | lia | lia | lia | lia |].
      rewrite (IH fuel' ln' _ file); [| done | done | lia | lia | done].
      unfold report. cbn [_isSet negb fileName contigName knownCount totalCount snd].
      rewrite !Z.add_0_l, <- app_assoc. done.
Qed.

(** X19. A text of records, each a header line with a contig name
    followed by sequence bytes below 0x80 without NUL or [>], every text
    before another header ending with a line end, gives one report line for
    each record, in order: the name, the number of [ACGTacgt] bytes of its
    text and the number of its bytes other than [\n] and [\r], however the
    text is cut into lines and however long its lines are. *)
Theorem records_are_counted (rs : list (header_parts * list byte)) (file : string) :
  records_ok rs ->
  Z.of_nat (length (records_text rs)) < UINT_MODULUS - 1 ->
  get_seq_counts (open_on (records_text rs)) file
    = Done true (record_report file <$> rs) [].
Proof.
  intros Hok Hlen. unfold get_seq_counts, open_on. cbn [rest].
  rewrite (scan_loop_records rs _ 0 _ file); [done | done | done | done | lia | lia].
Qed.

Lemma records_are_counted_witness :
  records_ok [(mk_header_parts [] [Byte.x63] [], [Byte.x41; Byte.x4e; LF]);
              (mk_header_parts [Byte.x20] [Byte.x64] [Byte.x20; Byte.x78],
               [Byte.x67; CR; LF; Byte.x74])] /\
  get_seq_counts
    (open_on (records_text
       [(mk_header_parts [] [Byte.x63] [], [Byte.x41; Byte.x4e; LF]);
        (mk_header_parts [Byte.x20] [Byte.x64] [Byte.x20; Byte.x78],
         [Byte.x67; CR; LF; Byte.x74])])) "stdin"
    = Done true [mk_report_line "stdin" [Byte.x63] (Some 1) (Some 2);
                 mk_report_line "stdin" [Byte.x64] (Some 2) (Some 2)] [].
Proof.
  assert (Hok : records_ok
            [(mk_header_parts [] [Byte.x63] [], [Byte.x41; Byte.x4e; LF]);
             (mk_header_parts [Byte.x20] [Byte.x64] [Byte.x20; Byte.x78],
              [Byte.x67; CR; LF; Byte.x74])]).
  { cbn [records_ok fst snd]. unfold header_ok. cbn.
    repeat split; try (repeat constructor; discriminate); try lia. }
  split; [exact Hok|].
  exact (records_are_counted _ "stdin" Hok eq_refl).
Defined.

(** *** A header line longer than the buffer *)

Lemma extract_full l : forall room t,
  Forall (fun c => c <> LF) l ->
  length l = room ->
  t <> [] -> deref t <> LF ->
  extract (l ++ t) room = (l, t, HitFull).
Proof.
  induction l as [|c l IH]; intros room t Hall Hlen Ht Hd.
  - destruct t as [|x t]; [done|]. cbn in *. subst room.
    by rewrite bool_decide_eq_false_2.
  - apply Forall_cons in Hall as [Hc Hall]. cbn [app extract length] in *.
    rewrite bool_decide_eq_false_2 by done.
    destruct room as [|room]; [lia|]. rewrite (IH room t) by (done || lia). done.
Qed.

(** The loop while it skips what is left of a wrapped header line. *)
Lemma scan_loop_skips_header fuel : forall extra text line_no sr report_os,
  Forall (fun c => c <> LF) extra ->
  0 <= line_no -> line_no + 1 < UINT_MODULUS ->
  (length extra + S (length text) < fuel)%nat ->
  exists fuel',
    (length text < fuel')%nat /\
    scan_loop fuel (mk_istream (extra ++ LF :: text) false false false) true line_no
              sr report_os
      = scan_loop fuel' (mk_istream text false false false) false (line_no + 1)
                  sr report_os.
Proof.
  induction fuel as [|fuel IH];
    intros extra text line_no sr report_os Hall Hln Hlnb Hfuel; [lia|].
  cbn [scan_loop]. unfold getline, good. cbn [eofbit failbit badbit orb negb rest].
  change (buff_size - 1)%nat with 511%nat.
  destruct (decide (length extra <= 511)%nat) as [Hshort|Hlong].
  - rewrite (proj1 (extract_whole_line extra 511 text Hall Hshort)).
    cbn [fail failbit badbit eofbit orb andb negb].
    exists fuel. split; [lia|]. by rewrite wrap_unsigned_small by lia.
  - replace (extra ++ LF :: text)
      with (take 511 extra ++ (drop 511 extra ++ LF :: text))
      by (by rewrite app_assoc, take_drop).
    assert (Hdrop : drop 511 extra <> []).
    { intros Hnil. apply (f_equal length) in Hnil. rewrite length_drop in Hnil.
      simpl in Hnil. lia. }
    rewrite extract_full.
    + cbn [fail failbit badbit eofbit orb andb negb].
      unfold CountFastaBases.clear. cbn [rest].
      destruct (IH (drop 511 extra) text line_no sr report_os) as (fuel' & Hf' & ->);
        [by apply Forall_drop | done | done | rewrite length_drop; lia |].
      by exists fuel'.
    + by apply Forall_take.
    + rewrite length_take. lia.
    + by destruct (drop 511 extra).
    + destruct (drop 511 extra) as [|x d] eqn:Ed; [done|]. cbn.
      assert (Hx : x ∈ extra).
      { rewrite <- (take_drop 511 extra), Ed. apply elem_of_app. right.
        apply elem_of_cons. by left. }
      rewrite Forall_forall in Hall. by apply Hall.
Qed.

(** X24. A header line too long for the buffer is still one header: the
    contig name is read from the first 511 bytes, and what follows on the
    line, up to its end, is passed over and never counted, whatever bytes
    it holds. The record is then reported as with a short header. *)
Theorem long_header_is_skipped
    (h : header_parts) (extra body : list byte) (file : string) :
  header_ok h ->
  length (header_line h) = 511%nat ->
  extra <> [] ->
  Forall (fun c => c <> LF) extra ->
  Forall sequence_byte body ->
  Z.of_nat (length (header_line h ++ extra ++ LF :: body)) < UINT_MODULUS - 1 ->
  get_seq_counts (open_on (header_line h ++ extra ++ LF :: body)) file
    = Done true
        [mk_report_line file (hp_name h)
           (Some (Z.of_nat (count_if is_acgt body)))
           (Some (Z.of_nat (count_if is_base_byte body)))]
        [].
Proof.
  intros Hh Hfull Hextra Hnolf_e Hbody Hlen.
  pose proof (header_line_no_LF h Hh) as Hnolf.
  destruct (header_words h Hh) as (Hns & Hnul & Hname).
  rewrite !length_app in Hlen. cbn [length] in Hlen.
  unfold get_seq_counts, open_on. cbn [rest scan_loop].
  unfold getline, good. cbn [eofbit failbit badbit orb negb rest].
  change (buff_size - 1)%nat with 511%nat.
  rewrite extract_full; [| done | done | by destruct extra | ].
  2: { destruct extra as [|x extra]; [done|]. cbn.
       by apply Forall_cons in Hnolf_e as [? _]. }
  cbn [fail failbit badbit eofbit orb andb Z_of_bool].
  unfold CountFastaBases.clear. cbn [rest].
  rewrite (bool_decide_eq_true_2 (deref (header_line h) = GT)) by done.
  cbn [report scan_result_ctor _isSet negb].
  rewrite (bool_decide_eq_false_2 _ Hnul).
  unfold reset. rewrite Hname. change (fileName (scan_result_ctor file)) with file.
  destruct (scan_loop_skips_header
              (length (header_line h ++ extra ++ LF :: body)) extra body 0
              (mk_scan_result file (hp_name h) (Some 0) (Some 0) true) [])
    as (fuel' & Hf' & ->); [done | done | done | |].
  { rewrite !length_app. cbn [length]. lia. }
  apply (scan_loop_body _ _ body (0 + 1) (hp_name h) file 0 0 []); try done; lia.
Qed.

Lemma long_header_is_skipped_witness :
  get_seq_counts
    (open_on (header_line (mk_header_parts [] [Byte.x63] (replicate 509 Byte.x20))
              ++ [Byte.x41; Byte.x43] ++ LF :: [Byte.x47; Byte.x4e; LF])) "stdin"
    = Done true [mk_report_line "stdin" [Byte.x63] (Some 1) (Some 2)] [].
Proof.
  apply (long_header_is_skipped
           (mk_header_parts [] [Byte.x63] (replicate 509 Byte.x20))
           [Byte.x41; Byte.x43] [Byte.x47; Byte.x4e; LF] "stdin").
  - unfold header_ok. cbn [hp_pad hp_name hp_desc].
    split; [constructor|]. split; [discriminate|].
    split; [repeat constructor; discriminate|].
    split; [apply Forall_replicate; discriminate|].
    split; [right; by left | vm_compute; lia].
  - reflexivity.
  - discriminate.
  - repeat constructor; discriminate.
  - repeat constructor; discriminate.
  - reflexivity.
Defined.

(** *** A failure after some records *)

Lemma report_twice sr out :
  snd (report (fst (report sr out)) (snd (report sr out))) = snd (report sr out).
Proof. unfold report. destruct (_isSet sr) eqn:E; cbn; rewrite ?E; done. Qed.

(** One iteration on a header line that names no contig. *)
Lemma scan_loop_nameless fuel ws t line_no sr report_os :
  Forall (fun c => isspace c = true /\ c <> LF) ws ->
  (length ws <= 510)%nat ->
  t = [] \/ (exists t', t = LF :: t') ->
  0 <= line_no -> line_no + 1 < UINT_MODULUS ->
  scan_loop (S fuel) (mk_istream (GT :: ws ++ t) false false false) false line_no
            sr report_os
    = Done false (snd (report sr report_os))
           [ErrHeaderFormat (line_no + 1) (GT :: ws)].
Proof.
  intros Hws Hlen Ht Hln Hlnb.
  assert (Hnolf : Forall (fun c => c <> LF) ws)
    by (eapply Forall_impl; [exact Hws | by intros c [_ ?]]).
  cbn [scan_loop]. unfold getline, good. cbn [eofbit failbit badbit orb negb rest].
  change (buff_size - 1)%nat with 511%nat. cbn [extract].
  rewrite (bool_decide_eq_false_2 (GT = LF)) by discriminate.
  assert (Hex : exists r e, extract (ws ++ t) 510 = (ws, r, e) /\ e <> HitFull).
  { destruct Ht as [->|[t' ->]].
    - rewrite app_nil_r. exists [], HitEof.
      split; [by apply (extract_whole_line ws 510 []) | done].
    - exists t', HitDelim. split; [by apply extract_whole_line | done]. }
  destruct Hex as (r & e & -> & He).
  pose proof (report_twice sr report_os) as Htwice.
  destruct e; [| |done];
    cbn [fail failbit badbit eofbit orb andb Z_of_bool bool_decide decide_rel];
    rewrite ?(bool_decide_eq_false_2 (GT :: ws = [])) by done;
    cbn [fail failbit badbit eofbit orb andb Z_of_bool];
    rewrite (bool_decide_eq_true_2 (deref (GT :: ws) = GT)) by done;
    destruct (report sr report_os) as [sr1 out1]; cbn [fst snd tail] in *;
    rewrite next_word_blanks by done;
    rewrite (bool_decide_eq_true_2 (deref [] = NUL)) by done;
    unfold leave; rewrite Htwice, Z.add_0_r, !(wrap_unsigned_small (line_no + 1)) by lia;
    rewrite (c_string_id (GT :: ws)) by (constructor; [done | by apply blanks_no_NUL]);
    done.
Qed.

(** The loop over records that can all be followed by a header line, up
    to the text [tail] that follows them. *)
Lemma scan_loop_records_then rs : forall fuel line_no sr file report_os tail,
  Forall record_closed rs ->
  fileName sr = file ->
  0 <= line_no ->
  line_no + Z.of_nat (length (records_text rs) + length tail) < UINT_MODULUS - 1 ->
  (length (records_text rs) + length tail < fuel)%nat ->
  exists fuel' line_no' sr' out',
    (length tail < fuel')%nat /\
    0 <= line_no' <= line_no + Z.of_nat (length (records_text rs)) /\
    fileName sr' = file /\
    snd (report sr' out') = snd (report sr report_os) ++ (record_report file <$> rs) /\
    scan_loop fuel (mk_istream (records_text rs ++ tail) false false false) false
              line_no sr report_os
      = scan_loop fuel' (mk_istream tail false false false) false line_no' sr' out'.
Proof.
  induction rs as [|[h body] rs IH];
    intros fuel line_no sr file report_os tail Hok Hfile Hln Hlnb Hfuel.
  - exists fuel, line_no, sr, report_os. cbn in *.
    split; [lia|]. split; [lia|]. split; [done|]. split; [by rewrite app_nil_r | done].
  - apply Forall_cons in Hok as [(Hh & Hbody & Hend) Hok]. cbn [fst snd] in *.
    rewrite records_text_cons in *. cbn [fst snd] in *.
    rewrite !length_app in Hlnb, Hfuel. cbn [length] in Hlnb, Hfuel.
    rewrite length_app in Hlnb, Hfuel.
    destruct fuel as [|fuel]; [lia|].
    rewrite <- !app_assoc. cbn [app]. rewrite <- !app_assoc.
    rewrite scan_loop_header by (done || lia). rewrite Hfile.
    edestruct (scan_loop_text fuel body (records_text rs ++ tail) (line_no + 1)
                 (hp_name h) file 0 0)
      as (fuel1 & ln1 & Hf1 & Hln1 & ->);
      [done | done | lia | lia | lia | lia | lia | lia | rewrite length_app; lia |].
    rewrite length_app in Hf1.
    edestruct (IH fuel1 ln1
                 (mk_scan_result file (hp_name h)
                    (Some (0 + Z.of_nat (count_if is_acgt body)))
                    (Some (0 + Z.of_nat (count_if is_base_byte body))) true)
                 file (snd (report sr report_os)) tail)
      as (fuel' & ln' & sr' & out' & Hf' & Hln' & Hfile' & Hrep & ->);
      [done | done | lia | lia | lia |].
    exists fuel', ln', sr', out'. split; [done|].
    split; [rewrite !length_app; cbn [length]; rewrite length_app; lia|].
    split; [done|]. split; [|done].
    rewrite Hrep. unfold report at 1.
    cbn [_isSet negb fileName contigName knownCount totalCount snd].
    rewrite !Z.add_0_l, <- app_assoc. done.
Qed.

(** X25. A header line that names no contig, met after some records,
    makes the call fail with the header format error; the records read
    before it are all reported, the last one included, each once. *)
Theorem failure_keeps_earlier_reports
    (rs : list (header_parts * list byte)) (ws t : list byte) (file : string) :
  Forall record_closed rs ->
  Forall (fun c => isspace c = true /\ c <> LF) ws ->
  (length ws <= 510)%nat ->
  t = [] \/ (exists t', t = LF :: t') ->
  Z.of_nat (length (records_text rs ++ GT :: ws ++ t)) < UINT_MODULUS - 1 ->
  exists line,
    get_seq_counts (open_on (records_text rs ++ GT :: ws ++ t)) file
      = Done false (record_report file <$> rs) [ErrHeaderFormat line (GT :: ws)].
Proof.
  intros Hrs Hws Hlen Ht Hbound. rewrite length_app in Hbound.
  unfold get_seq_counts, open_on. cbn [rest].
  destruct (scan_loop_records_then rs
              (S (length (records_text rs ++ GT :: ws ++ t))) 0
              (scan_result_ctor file) file [] (GT :: ws ++ t))
    as (fuel' & ln' & sr' & out' & Hf' & Hln' & Hfile' & Hrep & ->);
    [done | done | done | lia | rewrite length_app; lia |].
  destruct fuel' as [|fuel']; [lia|].
  exists (ln' + 1). rewrite scan_loop_nameless by (done || lia).
  by rewrite Hrep.
Qed.

Lemma failure_keeps_earlier_reports_witness :
  Forall record_closed [(mk_header_parts [] [Byte.x63] [], [Byte.x41; Byte.x4e; LF])] /\
  exists line,
    get_seq_counts
      (open_on (records_text [(mk_header_parts [] [Byte.x63] [], [Byte.x41; Byte.x4e; LF])]
                ++ GT :: [Byte.x20] ++ [LF; Byte.x41])) "stdin"
      = Done false [mk_report_line "stdin" [Byte.x63] (Some 1) (Some 2)]
             [ErrHeaderFormat line [GT; Byte.x20]].
Proof.
  assert (Hrs : Forall record_closed
                  [(mk_header_parts [] [Byte.x63] [], [Byte.x41; Byte.x4e; LF])]).
  { constructor; [|constructor]. unfold record_closed, header_ok. cbn.
    repeat split; try (repeat constructor; discriminate); try lia. }
  split; [exact Hrs|].
  apply (failure_keeps_earlier_reports _ [Byte.x20] [LF; Byte.x41] "stdin" Hrs).
  - repeat constructor; discriminate.
  - simpl. lia.
  - right. by eexists.
  - reflexivity.
Defined.

(** *** The program *)

Section program.
Variable fs : gmap string (list byte).

Lemma file_good_report file :
  file_good fs file ->
  exists bytes,
    fs !! file = Some bytes /\
    get_seq_counts (open_on bytes) file = Done true (file_report fs file) [].
Proof.
  intros (bytes & r & Hfs & Hget). exists bytes. split; [done|].
  unfold file_report. by rewrite Hfs, Hget.
Qed.

(** The loop over arguments that all name good files. *)
Lemma main_loop_good good : forall i later report_os log_os,
  Forall (file_good fs) good ->
  (1 <= i)%nat ->
  (i = 1%nat -> forall a, head good = Some a -> a ∉ helpStr) ->
  main_loop fs i (good ++ later) report_os log_os
    = main_loop fs (i + length good) later
                (report_os ++ concat (file_report fs <$> good)) log_os.
Proof.
  induction good as [|a good IH]; intros i later report_os log_os Hgood Hi Hhelp.
  - cbn [app length fmap list_fmap concat]. by rewrite Nat.add_0_r, app_nil_r.
  - apply Forall_cons in Hgood as [Ha Hgood].
    destruct (file_good_report a Ha) as (bytes & Hfs & Hget).
    cbn [app main_loop].
    assert ((i =? 1)%nat && bool_decide (a ∈ helpStr) = false) as ->.
    { destruct (Nat.eqb_spec i 1) as [Hi1|_]; [|done].
      simpl. apply bool_decide_eq_false_2. by apply Hhelp. }
    rewrite Hfs. unfold check_get_seq_counts. rewrite Hget.
    rewrite IH by (done || lia).
    rewrite fmap_nil, app_nil_r, fmap_cons, concat_cons, app_assoc. cbn [length].
    by rewrite Nat.add_succ_r.
Qed.

(** X22. When every argument names a file that opens and is counted
    without an error, and the first is not a help word, the program ends
    with status 0, having reported the files in the order of the arguments
    and logged nothing. *)
Theorem main_reports_files_in_order (stdin : list byte) (args : list string) :
  args <> [] ->
  Forall (file_good fs) args ->
  (forall a, head args = Some a -> a ∉ helpStr) ->
  main fs stdin args
    = Exited ExitSuccess (concat (file_report fs <$> args)) [].
Proof.
  intros Hne Hgood Hhelp.
  assert (main fs stdin args = main_loop fs 1 args [] []) as ->
    by by destruct args.
  rewrite <- (app_nil_r args) at 1.
  rewrite main_loop_good by (done || lia). reflexivity.
Qed.

(** X23. The program stops at the first file that fails. When the files
    before it are good, a file that cannot be opened ends the run with the
    failure status, the reports of the files before it and the open error;
    a file that [get_seq_counts] rejects ends it with its own report lines
    and log lines added and the parse error last. The arguments after it
    are not looked at. *)
Theorem main_stops_at_first_failure
    (stdin : list byte) (good : list string) (bad : string) (later : list string) :
  Forall (file_good fs) good ->
  (forall a, head (good ++ [bad]) = Some a -> a ∉ helpStr) ->
  (fs !! bad = None ->
     main fs stdin (good ++ bad :: later)
       = Exited ExitFailure (concat (file_report fs <$> good)) [LogOpenFailed bad]) /\
  (forall bytes r l,
     fs !! bad = Some bytes ->
     get_seq_counts (open_on bytes) bad = Done false r l ->
     main fs stdin (good ++ bad :: later)
       = Exited ExitFailure (concat (file_report fs <$> good) ++ r)
                ((LogScan <$> l) ++ [LogParseFailed bad])).
Proof.
  intros Hgood Hhelp.
  assert (Hmain : main fs stdin (good ++ bad :: later)
                  = main_loop fs (1 + length good) (bad :: later)
                              (concat (file_report fs <$> good)) []).
  { assert (main fs stdin (good ++ bad :: later)
            = main_loop fs 1 (good ++ bad :: later) [] []) as ->
      by by destruct good.
    rewrite main_loop_good; [done | done | lia |].
    intros _ a Ha. apply Hhelp. by destruct good. }
  assert (Hnohelp : (1 + length good =? 1)%nat && bool_decide (bad ∈ helpStr) = false).
  { destruct good as [|g good]; [|done]. simpl.
    apply bool_decide_eq_false_2. by apply Hhelp. }
  rewrite Hmain. cbn [main_loop]. rewrite Hnohelp. split.
  - intros ->. done.
  - intros bytes r l -> Hget. unfold check_get_seq_counts. by rewrite Hget.
Qed.

End program.

Lemma main_reports_files_in_order_witness :
  Forall (file_good {[ "a.fa" := one_base_fasta Byte.x41 ]}) ["a.fa"; "a.fa"] /\
  main {[ "a.fa" := one_base_fasta Byte.x41 ]} [] ["a.fa"; "a.fa"]
    = Exited ExitSuccess
        [mk_report_line "a.fa" [Byte.x63] (Some 1) (Some 1);
         mk_report_line "a.fa" [Byte.x63] (Some 1) (Some 1)] [].
Proof.
  assert (Hg : file_good {[ "a.fa" := one_base_fasta Byte.x41 ]} "a.fa").
  { exists (one_base_fasta Byte.x41), [mk_report_line "a.fa" [Byte.x63] (Some 1) (Some 1)].
    split; reflexivity. }
  assert (Hall : Forall (file_good {[ "a.fa" := one_base_fasta Byte.x41 ]}) ["a.fa"; "a.fa"])
    by (repeat constructor; exact Hg).
  split; [exact Hall|].
  assert (Hne : ["a.fa"; "a.fa"] <> @nil string) by discriminate.
  assert (Hhelp : forall a, head ["a.fa"; "a.fa"] = Some a -> a ∉ helpStr).
  { intros a [= <-]. unfold helpStr. intros H.
    repeat (apply elem_of_cons in H as [H|H]; [discriminate H|]).
    by apply elem_of_nil in H. }
  exact (main_reports_files_in_order _ [] ["a.fa"; "a.fa"] Hne Hall Hhelp).
Defined.

Lemma main_stops_at_first_failure_witness :
  (∅ : gmap string (list byte)) !! "b.fa" = None /\
  main ∅ [] ([] ++ "b.fa" :: ["c.fa"]) = Exited ExitFailure [] [LogOpenFailed "b.fa"].
Proof.
  assert (H : (∅ : gmap string (list byte)) !! "b.fa" = None) by reflexivity.
  split; [exact H|].
  refine (proj1 (main_stops_at_first_failure ∅ [] [] "b.fa" ["c.fa"] _ _) H).
  - constructor.
  - intros a [= <-]. unfold helpStr. intros Hin.
    repeat (apply elem_of_cons in Hin as [Hin|Hin]; [discriminate Hin|]).
    by apply elem_of_nil in Hin.
Defined.

End CountFastaBasesFacts.
